(** * NK OAuth redirect handshake: a model of [src/nk-auth-handler.ts]

    The handler keeps one record per pending login in the browser's
    [localStorage], keyed by a random token, and consumes it when the
    identity provider redirects back.  The development below embeds the
    three exported functions ([handleNkLoginRequest], [handleNkLoginReturn],
    [CleanupLocalStorage]) and the private type guard [isRedirectData] as
    Rocq functions over an explicit store, and states the handshake
    properties against them.

    Conventions.
    - [localStorage] is an ordered list of key/value pairs with pairwise
      distinct keys ([Storage_wf]); [key i] is the i-th key in that order.
    - A JavaScript exception is an [outcome]; every stateful function has
      type [M A = Storage -> Storage * outcome A], so the store reached
      when an exception escapes is part of the result.
    - Numbers are integers ([Z]): the only numbers the handler computes
      with are millisecond timestamps.
    - The engine's built-ins ([JSON.parse], the text produced by
      [JSON.stringify], [ToNumber] on non-primitive operands) are the
      methods of the class [Engine]; the module [Codec] gives a concrete
      instance, proved to satisfy [EngineLaws], on which every example
      is evaluated.
    - Definitions come first; the facts about them start at the section
      on the concrete engine's laws. *)

From Stdlib Require Import String Ascii List ZArith Bool Lia Arith.
From Stdlib Require Import Decimal DecimalFacts DecimalPos DecimalZ.
From Equations Require Import Equations.
Import ListNotations.

Local Open Scope string_scope.
Local Open Scope Z_scope.

Set Implicit Arguments.
Set Warnings "-register-all".

(** ** JavaScript values *)

(** What [JSON.parse] can return.  An object keeps its members in textual
    order; a name bound twice reads as its last binding ([prop]). *)
Inductive json : Type :=
| JNull
| JBool (b : bool)
| JNum (n : Z)
| JStr (s : string)
| JArr (items : list json)
| JObj (members : list (string * json)).

(** What a caller can pass as application state: JSON-like data plus the
    two kinds of member [JSON.stringify] drops, [undefined] and functions.
    A function is opaque and is never called: objects are plain data, and
    an object with a callable [toJSON] member, which [JSON.stringify]
    would call, is outside the model. *)
Inductive value : Type :=
| VUndefined
| VFunction
| VNull
| VBool (b : bool)
| VNum (n : Z)
| VStr (s : string)
| VArr (items : list value)
| VObj (members : list (string * value)).

(** The last binding of [name] among [members] ([None] is [undefined]). *)
Fixpoint lookup_last {A : Type} (members : list (string * A)) (name : string)
  : option A :=
  match members with
  | [] => None
  | (k, v) :: rest =>
      match lookup_last rest name with
      | Some v' => Some v'
      | None => if String.eqb k name then Some v else None
      end
  end.

(** Exceptions.  [Error msg] is [new Error(msg)]; the other two are the
    engine's own. *)
Inductive exn : Type :=
| Error (msg : string)
| SyntaxError
| TypeError.

(** The three failures of [handleNkLoginReturn], under the names the
    specification gives them. *)
Definition MissingParameters : exn := Error "Redirect missing code/state!".
Definition UnknownOrExpiredToken : exn := Error "Missing state in local storage!".
Definition HandshakeExpired : exn := Error "Redirect attempt expired!".

Inductive outcome (A : Type) : Type :=
| Normal (a : A)
| Throw (e : exn).
Arguments Normal {A} a.
Arguments Throw {A} e.

(** [data.name] for a name that is no built-in member: an own property of
    an object, [undefined] on any other non-null value, a [TypeError] on
    [null]. *)
Definition prop (data : json) (name : string) : outcome (option json) :=
  match data with
  | JNull => Throw TypeError
  | JObj members => Normal (lookup_last members name)
  | _ => Normal None
  end.

(** ** The store *)

Definition Storage : Type := list (string * string).

Definition keys (st : Storage) : list string := map fst st.

Definition Storage_wf (st : Storage) : Prop := NoDup (keys st).

Fixpoint getItem (st : Storage) (k : string) : option string :=
  match st with
  | [] => None
  | (k', v) :: rest => if String.eqb k' k then Some v else getItem rest k
  end.

(** [setItem] overwrites in place or appends a new last entry. *)
Fixpoint setItem (st : Storage) (k v : string) : Storage :=
  match st with
  | [] => [(k, v)]
  | (k', v') :: rest =>
      if String.eqb k' k then (k', v) :: rest else (k', v') :: setItem rest k v
  end.

Definition removeItem (st : Storage) (k : string) : Storage :=
  filter (fun kv => negb (String.eqb (fst kv) k)) st.

Definition key (st : Storage) (i : nat) : option string := nth_error (keys st) i.

(** ** Stateful computations that may throw *)

Definition M (A : Type) : Type := Storage -> Storage * outcome A.

Definition ret {A : Type} (a : A) : M A := fun st => (st, Normal a).

Definition throw {A : Type} (e : exn) : M A := fun st => (st, Throw e).

Definition bind {A B : Type} (m : M A) (f : A -> M B) : M B :=
  fun st =>
    match m st with
    | (st', Normal a) => f a st'
    | (st', Throw e) => (st', Throw e)
    end.

(** Lifts a pure step that may throw. *)
Definition lift {A : Type} (o : outcome A) : M A := fun st => (st, o).

Declare Scope js_scope.
Delimit Scope js_scope with js.
Notation "x <- m ;; k" := (bind m (fun x => k))
  (at level 61, m at next level, right associativity) : js_scope.
Notation "m ;;; k" := (bind m (fun _ => k))
  (at level 61, right associativity) : js_scope.

(** ** The engine *)

Class Engine : Type := {
  (** [JSON.parse text]; [None] is a thrown [SyntaxError]. *)
  JSON_parse : string -> option json;
  (** The text [JSON.stringify] produces for a JSON value. *)
  JSON_text : json -> string;
  (** [ToNumber] of a string, array or object operand ([None] is [NaN]). *)
  ToNumber_object : json -> option Z
}.

(** [JSON.parse] inverts [JSON.stringify]. *)
Class EngineLaws (E : Engine) : Prop := {
  parse_text : forall j : json, JSON_parse (JSON_text j) = Some j
}.

(** The ambient browser state one call observes. *)
Record Env : Type := {
  Date_now : Z;
  location_origin : string;
  location_search : string;
  nanoid : nat -> string
}.

(** ** Query strings ([URLSearchParams]) *)

Module URLSearchParams.

Definition t : Type := list (string * string).

Definition hex_value (c : ascii) : option N :=
  let n := N_of_ascii c in
  if ((48 <=? n) && (n <=? 57))%N then Some (n - 48)%N
  else if ((65 <=? n) && (n <=? 70))%N then Some (n - 55)%N
  else if ((97 <=? n) && (n <=? 102))%N then Some (n - 87)%N
  else None.

(** Percent-decoding; [+] has already been turned into a space. *)
Fixpoint percent_decode (s : string) : string :=
  match s with
  | EmptyString => EmptyString
  | String c tl =>
      match tl with
      | String h (String l rest) =>
          if Ascii.eqb c "%" then
            match hex_value h, hex_value l with
            | Some a, Some b =>
                String (ascii_of_N (16 * a + b)) (percent_decode rest)
            | _, _ => String c (percent_decode tl)
            end
          else String c (percent_decode tl)
      | _ => String c (percent_decode tl)
      end
  end.

Fixpoint plus_to_space (s : string) : string :=
  match s with
  | EmptyString => EmptyString
  | String c tl =>
      String (if Ascii.eqb c "+" then " "%char else c) (plus_to_space tl)
  end.

Definition decode (s : string) : string := percent_decode (plus_to_space s).

(** The pieces of [s] between occurrences of [sep]. *)
Fixpoint split (sep : ascii) (s : string) : list string :=
  match s with
  | EmptyString => [EmptyString]
  | String c tl =>
      if Ascii.eqb c sep then EmptyString :: split sep tl
      else match split sep tl with
           | piece :: pieces => String c piece :: pieces
           | [] => [String c EmptyString]
           end
  end.

(** Name and value of one piece: cut at the first [=]. *)
Fixpoint name_value (piece : string) : string * string :=
  match piece with
  | EmptyString => (EmptyString, EmptyString)
  | String c tl =>
      if Ascii.eqb c "=" then (EmptyString, tl)
      else let (n, v) := name_value tl in (String c n, v)
  end.

Definition parse_piece (piece : string) : string * string :=
  let (n, v) := name_value piece in (decode n, decode v).

Definition nonempty (piece : string) : bool :=
  negb (String.eqb piece EmptyString).

(** [new URLSearchParams(search)]. *)
Definition new (search : string) : t :=
  let body := match search with
              | String c tl => if Ascii.eqb c "?" then tl else search
              | EmptyString => search
              end in
  map parse_piece (filter nonempty (split "&" body)).

(** [params.get(name)]: the first value under [name]. *)
Fixpoint get (params : t) (name : string) : option string :=
  match params with
  | [] => None
  | (n, v) :: rest => if String.eqb n name then Some v else get rest name
  end.

Definition hex_digit (n : N) : ascii :=
  if (n <? 10)%N then ascii_of_N (48 + n) else ascii_of_N (55 + n).

(** Bytes the form-urlencoded serializer leaves as they are. *)
Definition unreserved (c : ascii) : bool :=
  let n := N_of_ascii c in
  (((48 <=? n) && (n <=? 57)) || ((65 <=? n) && (n <=? 90))
   || ((97 <=? n) && (n <=? 122))
   || (n =? 42) || (n =? 45) || (n =? 46) || (n =? 95))%N.

(** One byte, form-urlencoded, in front of [k]. *)
Definition encode_byte (c : ascii) (k : string) : string :=
  if unreserved c then String c k
  else if Ascii.eqb c " " then String "+" k
  else let n := N_of_ascii c in
       String "%" (String (hex_digit (n / 16))
                  (String (hex_digit (n mod 16)) k)).

Fixpoint encode (s : string) : string :=
  match s with
  | EmptyString => EmptyString
  | String c tl => encode_byte c (encode tl)
  end.

(** [params.toString()]. *)
Fixpoint toString (params : t) : string :=
  match params with
  | [] => EmptyString
  | [(n, v)] => encode n ++ "=" ++ encode v
  | (n, v) :: rest => encode n ++ "=" ++ encode v ++ "&" ++ toString rest
  end.

Fixpoint all_chars (p : ascii -> bool) (s : string) : bool :=
  match s with
  | EmptyString => true
  | String c tl => p c && all_chars p tl
  end.

(** The characters [encode] writes. *)
Definition encoded_char (c : ascii) : bool :=
  unreserved c || Ascii.eqb c "+" || Ascii.eqb c "%".

(** One serialized pair. *)
Definition pair_text (nv : string * string) : string :=
  encode (fst nv) ++ String "=" (encode (snd nv)).

End URLSearchParams.

(** ** The handler *)

Definition inspect {A : Type} (a : A) : {b : A | a = b} := exist _ a eq_refl.

(** NK Auth Redirect path location *)
Definition NkAuthRedirectPath : string := "/nk-auth-redirect".

(** Data returned from a successful redirect attempt.  [state] is read off
    the parsed record, so it may be [undefined] ([None]). *)
Record IRedirectReturn : Type := {
  state : option json;
  code : string
}.

(** [JSON.stringify]'s view of a value: [None] where it yields [undefined]
    (the member is dropped from an object and becomes [null] in an array). *)
Fixpoint to_json (v : value) : option json :=
  match v with
  | VUndefined | VFunction => None
  | VNull => Some JNull
  | VBool b => Some (JBool b)
  | VNum n => Some (JNum n)
  | VStr s => Some (JStr s)
  | VArr items =>
      Some (JArr (map (fun x => match to_json x with
                                | Some j => j
                                | None => JNull
                                end) items))
  | VObj members =>
      Some (JObj (flat_map (fun kv : string * value =>
                                      let (k, x) := kv in
                                      match to_json x with
                                      | Some j => [(k, j)]
                                      | None => []
                                      end) members))
  end.

(** A parsed value seen again as a plain JavaScript value. *)
Fixpoint of_json (j : json) : value :=
  match j with
  | JNull => VNull
  | JBool b => VBool b
  | JNum n => VNum n
  | JStr s => VStr s
  | JArr items => VArr (map of_json items)
  | JObj members =>
      VObj (map (fun kv : string * json => let (k, x) := kv in (k, of_json x))
                members)
  end.

(** The type guard: both fields are present.  Reading a field of [null]
    throws. *)
Definition isRedirectData (data : json) : outcome bool :=
  match prop data "state" with
  | Throw e => Throw e
  | Normal None => Normal false
  | Normal (Some _) =>
      match prop data "expiresOn" with
      | Throw e => Throw e
      | Normal None => Normal false
      | Normal (Some _) => Normal true
      end
  end.

Section Handler.

Context {E : Engine}.

Definition JSON_stringify (v : value) : option string :=
  option_map JSON_text (to_json v).

(** [ToNumber] of an operand that may be [undefined]. *)
Definition ToNumber (x : option json) : option Z :=
  match x with
  | None => None
  | Some JNull => Some 0
  | Some (JBool b) => Some (if b then 1 else 0)
  | Some (JNum n) => Some n
  | Some other => ToNumber_object other
  end.

(** [x > n] for a number [n]: false when [x] converts to [NaN]. *)
Definition js_gt (x : option json) (n : Z) : bool :=
  match ToNumber x with
  | Some m => n <? m
  | None => false
  end.

(** A nullable string handed to an API that wants a string. *)
Definition DOMString (s : option string) : string :=
  match s with
  | Some s => s
  | None => "null"
  end.

(** The loop of [CleanupLocalStorage], entered with counter [i].  The
    guard [i < localStorage.length] and the read [localStorage.key(i)]
    are one test: [key st i] is defined exactly when [i] is in range.
    After a removal the source decrements [i] and the loop header
    increments it again, so the next round runs at the same [i]. *)
Equations? cleanup_loop (st : Storage) (i : nat) : Storage * outcome unit
  by wf (length st - i)%nat lt :=
cleanup_loop st i with inspect (key st i) := {
  | exist _ None _ => (st, Normal tt)
  | exist _ (Some storageKey) Hkey
      with JSON_parse (DOMString (getItem st storageKey)) := {
      | None => (st, Throw SyntaxError)
      | Some storageItem with isRedirectData storageItem := {
          | Throw e => (st, Throw e)
          | Normal true => cleanup_loop (removeItem st storageKey) i
          | Normal false => cleanup_loop st (S i) } } }.
Proof.
  all: assert (Hlt : (i < length st)%nat)
    by (unfold key, keys in Hkey; rewrite <- (length_map fst st);
        apply nth_error_Some; congruence).
  - enough (Hrm : forall k (entries : Storage),
               In k (keys entries) ->
               (length (removeItem entries k) < length entries)%nat).
    { specialize (Hrm storageKey st (nth_error_In _ _ Hkey)). lia. }
    clear. intros k entries. unfold removeItem, keys.
    induction entries as [|[k' v] rest IH]; simpl; [contradiction|].
    intros Hin. destruct (String.eqb_spec k' k) as [->|Hne]; simpl.
    + pose proof (filter_length_le
        (fun kv : string * string => negb (fst kv =? k)%string) rest).
      lia.
    + destruct Hin as [Heq|Hin]; [congruence|].
      specialize (IH Hin). lia.
  - lia.
Qed.

(** Function that cleans up all redirect attempts in local storage. *)
Definition CleanupLocalStorage : M unit := fun st => cleanup_loop st 0.

Local Open Scope js_scope.

(** Handles an NK login request: saves the session in local storage and
    yields the address handed to [window.location.assign]. *)
Definition handleNkLoginRequest (env : Env) (state : value) : M string :=
  fun st =>
    let id := nanoid env 15 in
    let sessionData :=
      VObj [("state", state); ("expiresOn", VNum (Date_now env + 60 * 1000))] in
    let st' :=
      setItem st id (match JSON_stringify sessionData with
                     | Some text => text
                     | None => "undefined"
                     end) in
    let urlParams : URLSearchParams.t :=
      [("response_type", "code");
       ("client_id", "logbook-visualizer");
       ("redirect_uri", location_origin env ++ NkAuthRedirectPath);
       ("scope", "read");
       ("state", id)] in
    (st', Normal ("https://oauth-logbook.nksports.com/oauth/authorize?"
                    ++ URLSearchParams.toString urlParams)).

(** Handles the return from a NK login redirect. *)
Definition handleNkLoginReturn (env : Env) : M IRedirectReturn :=
  let urlParams := URLSearchParams.new (location_search env) in
  let code := URLSearchParams.get urlParams "code" in
  let state := URLSearchParams.get urlParams "state" in
  match code, state with
  | Some code, Some state =>
      stateBodyString <- (fun st => (st, Normal (getItem st state))) ;;
      CleanupLocalStorage ;;;
      match stateBodyString with
      | None => throw UnknownOrExpiredToken
      | Some stateBodyString =>
          match JSON_parse stateBodyString with
          | None => throw SyntaxError
          | Some stateBody =>
              expiresOn <- lift (prop stateBody "expiresOn") ;;
              if js_gt expiresOn (Date_now env)
              then throw HandshakeExpired
              else
                state <- lift (prop stateBody "state") ;;
                ret {| state := state; code := code |}
          end
      end
  | _, _ =>
      CleanupLocalStorage ;;;
      throw MissingParameters
  end.

End Handler.

(** ** Vocabulary of the properties *)

Section Vocabulary.

Context {E : Engine}.

(** The value parses as a pending handshake: both fields are present. *)
Definition parses_as_handshake (v : string) : bool :=
  match JSON_parse v with
  | Some item =>
      match isRedirectData item with
      | Normal b => b
      | Throw _ => false
      end
  | None => false
  end.

(** The sweep can inspect the value: it is JSON text and not [null]. *)
Definition inspectable (v : string) : bool :=
  match JSON_parse v with
  | Some JNull => false
  | Some _ => true
  | None => false
  end.

Definition holds_handshake (st : Storage) : bool :=
  existsb (fun kv => parses_as_handshake (snd kv)) st.

(** What one pass over the entries does, written by recursion on the
    list of entries still to visit: the reference the index loop of
    [CleanupLocalStorage] is compared with. *)
Fixpoint sweep (st : Storage) : Storage * outcome unit :=
  match st with
  | [] => ([], Normal tt)
  | (k, v) :: rest =>
      match JSON_parse v with
      | None => (st, Throw SyntaxError)
      | Some item =>
          match isRedirectData item with
          | Throw e => (st, Throw e)
          | Normal true => sweep rest
          | Normal false =>
              let (rest', o) := sweep rest in ((k, v) :: rest', o)
          end
      end
  end.

Definition query (env : Env) (name : string) : option string :=
  URLSearchParams.get (URLSearchParams.new (location_search env)) name.

(** What [handleNkLoginReturn] does once the sweep has returned: the
    checks on the record read before the sweep. *)
Definition validate (env : Env) (code : string) (stateBodyString : option string)
  : outcome IRedirectReturn :=
  match stateBodyString with
  | None => Throw UnknownOrExpiredToken
  | Some text =>
      match JSON_parse text with
      | None => Throw SyntaxError
      | Some stateBody =>
          match prop stateBody "expiresOn" with
          | Throw e => Throw e
          | Normal expiresOn =>
              if js_gt expiresOn (Date_now env) then Throw HandshakeExpired
              else match prop stateBody "state" with
                   | Throw e => Throw e
                   | Normal s => Normal {| state := s; code := code |}
                   end
          end
      end
  end.

(** The record [handleNkLoginRequest] serializes. *)
Definition pending_record (s : json) (expiresOn : Z) : json :=
  JObj [("state", s); ("expiresOn", JNum expiresOn)].

(** The parameters of the provider's authorization address. *)
Definition authorize_params (env : Env) : URLSearchParams.t :=
  [("response_type", "code");
   ("client_id", "logbook-visualizer");
   ("redirect_uri", (location_origin env ++ "/nk-auth-redirect")%string);
   ("scope", "read");
   ("state", nanoid env 15)].

(** [JSON.parse(JSON.stringify(v))]. *)
Definition JSON_roundtrip (v : value) : option json :=
  match JSON_stringify v with
  | Some text => JSON_parse text
  | None => None
  end.

End Vocabulary.

(** ** The provider component ([NkAuthProvider]) *)

(** The two handlers the application passes to the provider.  Each is an
    arbitrary computation over the store that may throw. *)
Record INkAuthProviderProps : Type := {
  redirectCallback : option json -> string -> M unit;
  redirectError : M unit
}.

(** [try { body } catch (error) { handler(error) }]. *)
Definition try_catch {A : Type} (body : M A) (handler : exn -> M A) : M A :=
  fun st =>
    match body st with
    | (st', Normal a) => (st', Normal a)
    | (st', Throw e) => handler e st'
    end.

Section Provider.

Context {E : Engine}.

Local Open Scope js_scope.

(** The body of the provider's [useEffect], run at [location.pathname]. *)
Definition NkAuthProvider_effect (props : INkAuthProviderProps)
  (location_pathname : string) (env : Env) : M unit :=
  if negb (String.eqb location_pathname NkAuthRedirectPath) then
    CleanupLocalStorage
  else
    try_catch
      (r <- handleNkLoginReturn env ;;
       redirectCallback props (state r) (code r))
      (fun _error => redirectError props).

End Provider.

(** ** A concrete engine

    Compact JSON text over 8-bit characters and integer numbers: the
    printer follows [JSON.stringify] (no white space, the two-character
    escapes, [\u00xx] for the other control characters), the parser
    accepts RFC 8259 text with integer numbers.  Printers carry the text
    that follows as an argument, so that the parser's answer on printed
    text can be stated without concatenation. *)

Module Codec.

Definition dquote : ascii := "034"%char.
Definition backslash : ascii := "092"%char.

Definition is_ws (c : ascii) : bool :=
  Ascii.eqb c " " || Ascii.eqb c "009" || Ascii.eqb c "010" || Ascii.eqb c "013".

Fixpoint skip_ws (s : string) : string :=
  match s with
  | EmptyString => EmptyString
  | String c tl => if is_ws c then skip_ws tl else s
  end.

(** *** Numbers *)

Definition digit_of_char (c : ascii) : option (uint -> uint) :=
  if Ascii.eqb c "0" then Some D0 else if Ascii.eqb c "1" then Some D1
  else if Ascii.eqb c "2" then Some D2 else if Ascii.eqb c "3" then Some D3
  else if Ascii.eqb c "4" then Some D4 else if Ascii.eqb c "5" then Some D5
  else if Ascii.eqb c "6" then Some D6 else if Ascii.eqb c "7" then Some D7
  else if Ascii.eqb c "8" then Some D8 else if Ascii.eqb c "9" then Some D9
  else None.

Definition is_digit (c : ascii) : bool :=
  match digit_of_char c with Some _ => true | None => false end.

Fixpoint print_uint (u : uint) (k : string) : string :=
  match u with
  | Nil => k
  | D0 u => String "0" (print_uint u k)
  | D1 u => String "1" (print_uint u k)
  | D2 u => String "2" (print_uint u k)
  | D3 u => String "3" (print_uint u k)
  | D4 u => String "4" (print_uint u k)
  | D5 u => String "5" (print_uint u k)
  | D6 u => String "6" (print_uint u k)
  | D7 u => String "7" (print_uint u k)
  | D8 u => String "8" (print_uint u k)
  | D9 u => String "9" (print_uint u k)
  end.

Definition print_int (n : Z) (k : string) : string :=
  match Z.to_int n with
  | Pos u => print_uint u k
  | Neg u => String "-" (print_uint u k)
  end.

(** The longest run of digits at the head of [s], and what follows. *)
Fixpoint parse_uint (s : string) : uint * string :=
  match s with
  | EmptyString => (Nil, s)
  | String c tl =>
      match digit_of_char c with
      | Some d => let (u, rest) := parse_uint tl in (d u, rest)
      | None => (Nil, s)
      end
  end.

(** A JSON integer part is [0] or starts with a non-zero digit: the
    digit strings that are in normal form. *)
Definition parse_nat (s : string) : option (uint * string) :=
  let (u, rest) := parse_uint s in
  if uint_eq_dec (unorm u) u then Some (u, rest) else None.

(** *** Strings *)

Definition lower_hex_digit (n : N) : ascii :=
  if (n <? 10)%N then ascii_of_N (48 + n) else ascii_of_N (87 + n).

(** One character of a string literal, as [JSON.stringify] writes it. *)
Definition escape (c : ascii) (k : string) : string :=
  let n := N_of_ascii c in
  if Ascii.eqb c dquote then String backslash (String dquote k)
  else if Ascii.eqb c backslash then String backslash (String backslash k)
  else if (n =? 8)%N then String backslash (String "b" k)
  else if (n =? 9)%N then String backslash (String "t" k)
  else if (n =? 10)%N then String backslash (String "n" k)
  else if (n =? 12)%N then String backslash (String "f" k)
  else if (n =? 13)%N then String backslash (String "r" k)
  else if (n <? 32)%N then
    String backslash (String "u" (String "0" (String "0"
      (String (lower_hex_digit (n / 16))
         (String (lower_hex_digit (n mod 16)) k)))))
  else String c k.

(** The characters of [s], escaped, then the closing quote. *)
Fixpoint print_chars (s : string) (k : string) : string :=
  match s with
  | EmptyString => String dquote k
  | String c tl => escape c (print_chars tl k)
  end.

Definition print_string (s : string) (k : string) : string :=
  String dquote (print_chars s k).

Definition unescape (e : ascii) : option ascii :=
  if Ascii.eqb e dquote then Some dquote
  else if Ascii.eqb e backslash then Some backslash
  else if Ascii.eqb e "/" then Some "/"%char
  else if Ascii.eqb e "b" then Some "008"%char
  else if Ascii.eqb e "t" then Some "009"%char
  else if Ascii.eqb e "n" then Some "010"%char
  else if Ascii.eqb e "f" then Some "012"%char
  else if Ascii.eqb e "r" then Some "013"%char
  else None.

(** The code unit of [\uh1h2h3h4], when it fits the 8-bit model. *)
Definition unicode_escape (h1 h2 h3 h4 : ascii) : option ascii :=
  match URLSearchParams.hex_value h1, URLSearchParams.hex_value h2,
        URLSearchParams.hex_value h3, URLSearchParams.hex_value h4 with
  | Some a, Some b, Some c, Some d =>
      if ((a =? 0) && (b =? 0))%N then Some (ascii_of_N (16 * c + d)) else None
  | _, _, _, _ => None
  end.

Definition cons_char (c : ascii) (r : option (string * string))
  : option (string * string) :=
  match r with
  | Some (s, rest) => Some (String c s, rest)
  | None => None
  end.

(** The body of a string literal, after its opening quote. *)
Fixpoint parse_chars (s : string) : option (string * string) :=
  match s with
  | EmptyString => None
  | String c tl =>
      if Ascii.eqb c dquote then Some (EmptyString, tl)
      else if Ascii.eqb c backslash then
        match tl with
        | EmptyString => None
        | String e tl' =>
            if Ascii.eqb e "u" then
              match tl' with
              | String h1 (String h2 (String h3 (String h4 tl''))) =>
                  match unicode_escape h1 h2 h3 h4 with
                  | Some ch => cons_char ch (parse_chars tl'')
                  | None => None
                  end
              | _ => None
              end
            else
              match unescape e with
              | Some ch => cons_char ch (parse_chars tl')
              | None => None
              end
        end
      else if (N_of_ascii c <? 32)%N then None
      else cons_char c (parse_chars tl)
  end.

(** *** Values *)

(** [items] separated by commas, then [close] and [k]. *)
Definition print_seq {A : Type} (pr : A -> string -> string) (close : ascii)
  : list A -> string -> string :=
  fix go (items : list A) (k : string) : string :=
    match items with
    | [] => String close k
    | [x] => pr x (String close k)
    | x :: rest => pr x (String "," (go rest k))
    end.

Definition print_member (pr : json -> string -> string)
  (kv : string * json) (k : string) : string :=
  let (name, x) := kv in print_string name (String ":" (pr x k)).

Fixpoint print (j : json) (k : string) : string :=
  match j with
  | JNull => "null" ++ k
  | JBool true => "true" ++ k
  | JBool false => "false" ++ k
  | JNum n => print_int n k
  | JStr s => print_string s k
  | JArr items => String "[" (print_seq print "]" items k)
  | JObj members =>
      String "{" (print_seq (print_member print) "}" members k)
  end.

(** [s] without its prefix [p]. *)
Fixpoint expect (p s : string) : option string :=
  match p, s with
  | EmptyString, _ => Some s
  | String a p', String b s' => if Ascii.eqb a b then expect p' s' else None
  | String _ _, EmptyString => None
  end.

Fixpoint parse_value (fuel : nat) (s : string) {struct fuel}
  : option (json * string) :=
  match fuel with
  | O => None
  | S fuel' =>
      match skip_ws s with
      | EmptyString => None
      | String c tl =>
          if Ascii.eqb c "n" then
            option_map (pair JNull) (expect "ull" tl)
          else if Ascii.eqb c "t" then
            option_map (pair (JBool true)) (expect "rue" tl)
          else if Ascii.eqb c "f" then
            option_map (pair (JBool false)) (expect "alse" tl)
          else if Ascii.eqb c dquote then
            match parse_chars tl with
            | Some (str, rest) => Some (JStr str, rest)
            | None => None
            end
          else if Ascii.eqb c "-" then
            match parse_nat tl with
            | Some (u, rest) => Some (JNum (Z.of_int (Neg u)), rest)
            | None => None
            end
          else if is_digit c then
            match parse_nat (String c tl) with
            | Some (u, rest) => Some (JNum (Z.of_int (Pos u)), rest)
            | None => None
            end
          else if Ascii.eqb c "[" then
            match skip_ws tl with
            | String c' tl' =>
                if Ascii.eqb c' "]" then Some (JArr [], tl')
                else match parse_items fuel' tl with
                     | Some (items, rest) => Some (JArr items, rest)
                     | None => None
                     end
            | EmptyString => None
            end
          else if Ascii.eqb c "{" then
            match skip_ws tl with
            | String c' tl' =>
                if Ascii.eqb c' "}" then Some (JObj [], tl')
                else match parse_members fuel' tl with
                     | Some (members, rest) => Some (JObj members, rest)
                     | None => None
                     end
            | EmptyString => None
            end
          else None
      end
  end

with parse_items (fuel : nat) (s : string) {struct fuel}
  : option (list json * string) :=
  match fuel with
  | O => None
  | S fuel' =>
      match parse_value fuel' s with
      | None => None
      | Some (x, rest) =>
          match skip_ws rest with
          | EmptyString => None
          | String c tl =>
              if Ascii.eqb c "]" then Some ([x], tl)
              else if Ascii.eqb c "," then
                match parse_items fuel' tl with
                | Some (items, rest') => Some (x :: items, rest')
                | None => None
                end
              else None
          end
      end
  end

with parse_members (fuel : nat) (s : string) {struct fuel}
  : option (list (string * json) * string) :=
  match fuel with
  | O => None
  | S fuel' =>
      match skip_ws s with
      | EmptyString => None
      | String q tl =>
          if Ascii.eqb q dquote then
            match parse_chars tl with
            | None => None
            | Some (name, rest) =>
                match skip_ws rest with
                | EmptyString => None
                | String colon tl' =>
                    if Ascii.eqb colon ":" then
                      match parse_value fuel' tl' with
                      | None => None
                      | Some (x, rest') =>
                          match skip_ws rest' with
                          | EmptyString => None
                          | String c tl'' =>
                              if Ascii.eqb c "}" then Some ([(name, x)], tl'')
                              else if Ascii.eqb c "," then
                                match parse_members fuel' tl'' with
                                | Some (members, rest'') =>
                                    Some ((name, x) :: members, rest'')
                                | None => None
                                end
                              else None
                          end
                      end
                    else None
                end
            end
          else None
      end
  end.

(** [JSON.parse]: one value, then nothing but white space. *)
Definition parse (s : string) : option json :=
  match parse_value (S (2 * String.length s)) s with
  | Some (j, rest) =>
      match skip_ws rest with
      | EmptyString => Some j
      | String _ _ => None
      end
  | None => None
  end.

Definition text (j : json) : string := print j EmptyString.

(** [StringToNumber] on decimal integer literals, white space around
    them allowed and the empty text reading as zero.  Hexadecimal,
    fractional and exponent forms fall outside the integer model and
    read as [NaN] here. *)
Definition string_to_number (s : string) : option Z :=
  match skip_ws s with
  | EmptyString => Some 0
  | String c tl =>
      let (negative, digits) :=
        if Ascii.eqb c "-" then (true, tl)
        else if Ascii.eqb c "+" then (false, tl)
        else (false, String c tl) in
      match parse_uint digits with
      | (Nil, _) => None
      | (u, rest) =>
          match skip_ws rest with
          | EmptyString => Some (Z.of_int (if negative then Neg u else Pos u))
          | String _ _ => None
          end
      end
  end.

(** [ToNumber] of a string, array or object: an array first becomes the
    comma-joined text of its items, an object the text
    [[object Object]]. *)
Fixpoint to_number (j : json) : option Z :=
  match j with
  | JNull => Some 0
  | JBool b => Some (if b then 1 else 0)
  | JNum n => Some n
  | JStr s => string_to_number s
  | JArr [] => Some 0
  | JArr [x] =>
      match x with
      | JNull => Some 0
      | JNum n => Some n
      | JStr s => string_to_number s
      | JArr _ => to_number x
      | JBool _ | JObj _ => None
      end
  | JArr (_ :: _ :: _) => None
  | JObj _ => None
  end.

(** Text that cannot continue a number. *)
Definition ends_number (k : string) : Prop :=
  match k with
  | EmptyString => True
  | String c _ => is_digit c = false
  end.

(** Fuel that [parse_value] needs on the text of [j]. *)
Fixpoint jsize (j : json) : nat :=
  match j with
  | JArr items => S (list_sum (map (fun x => S (jsize x)) items))
  | JObj members =>
      S (list_sum (map (fun kv : string * json =>
                          let (_, x) := kv in S (jsize x)) members))
  | _ => 1
  end.

Definition items_size (items : list json) : nat :=
  list_sum (map (fun x => S (jsize x)) items).

Definition members_size (members : list (string * json)) : nat :=
  list_sum (map (fun kv : string * json => let (_, x) := kv in S (jsize x))
                members).

(** Printed values start with a character that is neither white space
    nor a closing bracket. *)
Definition opens_value (c : ascii) : Prop :=
  is_ws c = false /\ Ascii.eqb c "]" = false /\ Ascii.eqb c "}" = false.

End Codec.

#[export] Instance codec_engine : Engine := {|
  JSON_parse := Codec.parse;
  JSON_text := Codec.text;
  ToNumber_object := Codec.to_number
|}.

(** ** Sample data for the concrete runs *)

Module Sample.

Local Open Scope string_scope.

(** A browser at time [now] whose address bar carries [search]. *)
Definition browser (now : Z) (search : string) : Env := {|
  Date_now := now;
  location_origin := "https://dash.example";
  location_search := search;
  nanoid := fun size => String.substring 0 size "V1StGXR8_Z5jdHi6B-myT"
|}.

Definition now : Z := 1700000000000.

(** The application state of the examples, and its parsed form. *)
Definition page : value := VObj [("page", VStr "/logbook")].
Definition page_json : json := JObj [("page", JStr "/logbook")].

(** The stored text of a handshake that expires at [e]. *)
Definition record_text (e : Z) : string :=
  JSON_text (pending_record page_json e).

(** What another script of the same origin left behind: a value that
    is no JSON text. *)
Definition theme : string * string := ("theme", "dark").

(** An application state with members JSON drops. *)
Definition page_with_callback : value :=
  VObj [("page", VStr "/logbook"); ("onDone", VFunction); ("draft", VUndefined)].

End Sample.

(** Handlers for the concrete runs of the provider's effect: a pair
    that only returns, and a pair whose success handler throws and whose
    failure handler leaves a mark in the store. *)
Module SampleProps.

Local Open Scope string_scope.

Definition quiet : INkAuthProviderProps := {|
  redirectCallback := fun _ _ => ret tt;
  redirectError := ret tt
|}.

Definition failing_callback : INkAuthProviderProps := {|
  redirectCallback := fun _ _ => throw (Error "navigation failed");
  redirectError := fun st => (setItem st "loginFailed" "true", Normal tt)
|}.

End SampleProps.

(** ** The concrete engine satisfies the engine laws *)

Module CodecFacts.
Import Codec.

Lemma parse_uint_print (u : uint) (k : string) :
  ends_number k -> parse_uint (print_uint u k) = (u, k).
Proof.
  intros Hk. induction u; simpl; try (rewrite IHu; reflexivity).
  destruct k as [|c k]; simpl; [reflexivity|].
  simpl in Hk. unfold is_digit in Hk.
  destruct (digit_of_char c); [discriminate|reflexivity].
Qed.

Lemma to_int_norm (n : Z) : norm (Z.to_int n) = Z.to_int n.
Proof.
  rewrite <- (DecimalZ.to_of (Z.to_int n)), DecimalZ.of_to. reflexivity.
Qed.

Lemma to_int_Pos (n : Z) (u : uint) : Z.to_int n = Pos u -> unorm u = u.
Proof.
  intros H. pose proof (to_int_norm n) as Hn. rewrite H in Hn.
  simpl in Hn. congruence.
Qed.

Lemma to_int_Neg (n : Z) (u : uint) : Z.to_int n = Neg u -> unorm u = u.
Proof.
  intros H. pose proof (to_int_norm n) as Hn. rewrite H in Hn.
  simpl in Hn. unfold unorm.
  destruct (nzhead u); try discriminate; congruence.
Qed.

Lemma unorm_fixed_nonnil (u : uint) : unorm u = u -> u <> Nil.
Proof. intros H ->. discriminate. Qed.

Lemma parse_nat_print (u : uint) (k : string) :
  unorm u = u -> ends_number k -> parse_nat (print_uint u k) = Some (u, k).
Proof.
  intros Hu Hk. unfold parse_nat. rewrite parse_uint_print by assumption.
  destruct (uint_eq_dec (unorm u) u); [reflexivity|contradiction].
Qed.

Lemma print_uint_head (u : uint) (k : string) :
  u <> Nil ->
  exists c tl, print_uint u k = String c tl /\ is_digit c = true.
Proof.
  destruct u; intros H; try contradiction; simpl; eauto.
Qed.

Lemma is_digit_dispatch (c : ascii) :
  is_digit c = true ->
  is_ws c = false /\ Ascii.eqb c "n" = false /\ Ascii.eqb c "t" = false
  /\ Ascii.eqb c "f" = false /\ Ascii.eqb c dquote = false
  /\ Ascii.eqb c "-" = false.
Proof.
  unfold is_digit, digit_of_char.
  repeat match goal with
         | |- context [Ascii.eqb c ?d] =>
             lazymatch d with
             | "n"%char => fail | "t"%char => fail | "f"%char => fail
             | dquote => fail | "-"%char => fail
             | _ => destruct (Ascii.eqb_spec c d) as [->|_];
                    [intros _; repeat split; reflexivity|]
             end
         end.
  discriminate.
Qed.

Lemma parse_value_int (fuel : nat) (n : Z) (k : string) :
  ends_number k ->
  parse_value (S fuel) (print_int n k) = Some (JNum n, k).
Proof.
  intros Hk. unfold print_int.
  destruct (Z.to_int n) as [u|u] eqn:Hn.
  - pose proof (to_int_Pos _ Hn) as Hu.
    destruct (print_uint_head k (unorm_fixed_nonnil Hu)) as (c & tl & Hp & Hc).
    destruct (is_digit_dispatch _ Hc) as (Hws & H1 & H2 & H3 & H4 & H5).
    rewrite Hp. cbn -[parse_nat Z.of_int].
    rewrite Hws, H1, H2, H3, H4, H5, Hc.
    rewrite <- Hp, (parse_nat_print _ Hu Hk), <- Hn, DecimalZ.of_to.
    reflexivity.
  - pose proof (to_int_Neg _ Hn) as Hu.
    cbn -[parse_nat Z.of_int].
    rewrite (parse_nat_print _ Hu Hk), <- Hn, DecimalZ.of_to. reflexivity.
Qed.

Lemma parse_chars_escape (c : ascii) (rest : string) :
  parse_chars (escape c rest) = cons_char c (parse_chars rest).
Proof.
  destruct c as [[] [] [] [] [] [] [] []]; reflexivity.
Qed.

Lemma parse_chars_print (s k : string) :
  parse_chars (print_chars s k) = Some (s, k).
Proof.
  induction s as [|c s IH]; simpl.
  - reflexivity.
  - rewrite parse_chars_escape, IH. reflexivity.
Qed.

Lemma print_head (j : json) (k : string) :
  exists c tl, print j k = String c tl /\ opens_value c.
Proof.
  unfold opens_value.
  destruct j as [|[]|n|s|items|members]; simpl;
    try (do 2 eexists; split; [reflexivity|repeat split; reflexivity]).
  unfold print_int. destruct (Z.to_int n) as [u|u] eqn:Hn.
  - destruct (print_uint_head k (unorm_fixed_nonnil (to_int_Pos _ Hn)))
      as (c & tl & Hp & Hc).
    exists c, tl. split; [exact Hp|].
    destruct (is_digit_dispatch _ Hc) as (Hws & _).
    split; [exact Hws|].
    unfold is_digit, digit_of_char in Hc.
    split; [destruct (Ascii.eqb_spec c "]") as [->|]
           |destruct (Ascii.eqb_spec c "}") as [->|]];
      try reflexivity; discriminate.
  - do 2 eexists; split; [reflexivity|repeat split; reflexivity].
Qed.

Lemma parse_print_all (fuel : nat) :
  (forall j k, (jsize j <= fuel)%nat -> ends_number k ->
               parse_value fuel (print j k) = Some (j, k))
  /\ (forall items k, items <> [] -> (items_size items <= fuel)%nat ->
                      parse_items fuel (print_seq print "]" items k)
                      = Some (items, k))
  /\ (forall members k, members <> [] -> (members_size members <= fuel)%nat ->
                        parse_members fuel
                          (print_seq (print_member print) "}" members k)
                        = Some (members, k)).
Proof.
  induction fuel as [|fuel (IHv & IHi & IHm)].
  - split; [|split].
    + intros j k H. destruct j; simpl in H; lia.
    + intros [|x items] k Hne H; [contradiction|].
      unfold items_size in H; simpl in H; lia.
    + intros [|[name x] members] k Hne H; [contradiction|].
      unfold members_size in H; simpl in H; lia.
  - split; [|split].
    + intros j k Hsize Hk.
      destruct j as [|[]|n|s|items|members]; try reflexivity.
      * apply parse_value_int; assumption.
      * cbn -[parse_chars print_chars]. rewrite parse_chars_print. reflexivity.
      * destruct items as [|x items]; [reflexivity|].
        assert (Hi : parse_items fuel (print_seq print "]" (x :: items) k)
                     = Some (x :: items, k)).
        { apply IHi; [discriminate|]. simpl in Hsize. unfold items_size.
          simpl. lia. }
        assert (Hhd : exists c tl, print_seq print "]" (x :: items) k
                                   = String c tl /\ opens_value c).
        { simpl. destruct items; apply print_head. }
        destruct Hhd as (c & tl & Hp & Hws & Hb & _).
        change (print (JArr (x :: items)) k)
          with (String "[" (print_seq print "]" (x :: items) k)).
        cbn -[print_seq parse_items]. 
        rewrite Hp at 1. simpl skip_ws. rewrite Hws, Hb, Hi. reflexivity.
      * destruct members as [|m members]; [reflexivity|].
        assert (Hm : parse_members fuel
                       (print_seq (print_member print) "}" (m :: members) k)
                     = Some (m :: members, k)).
        { apply IHm; [discriminate|]. simpl in Hsize. unfold members_size.
          simpl. destruct m. lia. }
        assert (Hhd : exists tl,
                   print_seq (print_member print) "}" (m :: members) k
                   = String dquote tl).
        { destruct m as [name x]. simpl. destruct members; eexists; reflexivity. }
        destruct Hhd as (tl & Hp).
        change (print (JObj (m :: members)) k)
          with (String "{" (print_seq (print_member print) "}" (m :: members) k)).
        cbn -[print_seq parse_members].
        rewrite Hp at 1. simpl skip_ws. cbn -[print_seq parse_members].
        rewrite Hm. reflexivity.
    + intros [|x items] k Hne Hsize; [contradiction|].
      unfold items_size in Hsize. simpl in Hsize.
      destruct items as [|y items].
      * simpl print_seq. cbn -[parse_value print].
        rewrite IHv by (first [exact eq_refl | simpl in *; lia]). reflexivity.
      * change (print_seq print "]" (x :: y :: items) k)
          with (print x (String "," (print_seq print "]" (y :: items) k))).
        cbn -[parse_value print print_seq].
        rewrite IHv by (first [exact eq_refl | simpl in *; lia]).
        cbn -[parse_value print print_seq].
        rewrite IHi; [reflexivity|discriminate|].
        unfold items_size. simpl in *. lia.
    + intros [|[name x] members] k Hne Hsize; [contradiction|].
      unfold members_size in Hsize. simpl in Hsize.
      destruct members as [|m members].
      * simpl print_seq. unfold print_member, print_string.
        cbn -[parse_value print parse_chars print_chars].
        rewrite parse_chars_print.
        cbn -[parse_value print parse_chars print_chars].
        rewrite IHv by (first [exact eq_refl | simpl in *; lia]). reflexivity.
      * change (print_seq (print_member print) "}" ((name, x) :: m :: members) k)
          with (print_string name (String ":" (print x
                  (String "," (print_seq (print_member print) "}"
                                         (m :: members) k))))).
        unfold print_string.
        cbn -[parse_value print parse_chars print_chars print_seq].
        rewrite parse_chars_print.
        cbn -[parse_value print parse_chars print_chars print_seq].
        rewrite IHv by (first [exact eq_refl | simpl in *; lia]).
        cbn -[parse_value print parse_chars print_chars print_seq].
        rewrite IHm; [reflexivity|discriminate|].
        unfold members_size. destruct m. simpl in *. lia.
Qed.

Section json_induction.

Variable P : json -> Prop.
Hypothesis HNull : P JNull.
Hypothesis HBool : forall b, P (JBool b).
Hypothesis HNum : forall n, P (JNum n).
Hypothesis HStr : forall s, P (JStr s).
Hypothesis HArr : forall items, Forall P items -> P (JArr items).
Hypothesis HObj :
  forall members, Forall (fun kv => P (snd kv)) members -> P (JObj members).

Fixpoint json_nested_ind (j : json) : P j :=
  match j with
  | JNull => HNull
  | JBool b => HBool b
  | JNum n => HNum n
  | JStr s => HStr s
  | JArr items =>
      HArr ((fix go (l : list json) : Forall P l :=
               match l with
               | [] => Forall_nil P
               | x :: r => Forall_cons x (json_nested_ind x) (go r)
               end) items)
  | JObj members =>
      HObj ((fix go (l : list (string * json))
               : Forall (fun kv => P (snd kv)) l :=
               match l with
               | [] => Forall_nil _
               | kv :: r =>
                   Forall_cons (P := fun kv => P (snd kv)) kv
                     (json_nested_ind (snd kv)) (go r)
               end) members)
  end.

End json_induction.

Lemma print_uint_length (u : uint) (k : string) :
  (String.length k <= String.length (print_uint u k))%nat.
Proof. induction u; simpl; lia. Qed.

Lemma print_int_length (n : Z) (k : string) :
  (S (String.length k) <= String.length (print_int n k))%nat.
Proof.
  unfold print_int. destruct (Z.to_int n) as [u|u] eqn:Hn.
  - pose proof (unorm_fixed_nonnil (to_int_Pos _ Hn)) as Hu.
    destruct u; try contradiction; simpl;
      pose proof (print_uint_length u k); lia.
  - simpl. pose proof (print_uint_length u k). lia.
Qed.

Lemma escape_length (c : ascii) (k : string) :
  (S (String.length k) <= String.length (escape c k))%nat.
Proof.
  unfold escape.
  repeat match goal with
         | |- context [if ?b then _ else _] => destruct b
         end; simpl; lia.
Qed.

Lemma print_string_length (s k : string) :
  (2 + String.length k <= String.length (print_string s k))%nat.
Proof.
  unfold print_string. simpl.
  enough (S (String.length k) <= String.length (print_chars s k))%nat by lia.
  induction s as [|c s IH]; simpl; [lia|].
  pose proof (escape_length c (print_chars s k)). lia.
Qed.

Lemma print_seq_length (A : Type) (pr : A -> string -> string)
      (cost : A -> nat) (close : ascii) (items : list A) (k : string) :
  Forall (fun x => forall k',
              (cost x + String.length k' <= S (String.length (pr x k')))%nat)
         items ->
  (list_sum (map cost items) + String.length k
   <= String.length (print_seq pr close items k))%nat.
Proof.
  induction 1 as [|x rest Hx Hrest IH].
  - simpl. lia.
  - destruct rest as [|y rest].
    + simpl. specialize (Hx (String close k)). simpl in Hx. lia.
    + change (print_seq pr close (x :: y :: rest) k)
        with (pr x (String "," (print_seq pr close (y :: rest) k))).
      specialize (Hx (String "," (print_seq pr close (y :: rest) k))).
      simpl in Hx. simpl in IH. simpl. lia.
Qed.

Lemma print_length (j : json) :
  forall k, (jsize j + String.length k <= String.length (print j k))%nat.
Proof.
  induction j as [|b|n|s|items IH|members IH] using json_nested_ind; intros k.
  - simpl. lia.
  - destruct b; simpl; lia.
  - simpl. pose proof (print_int_length n k). lia.
  - pose proof (print_string_length s k). simpl in *. lia.
  - simpl.
    enough (list_sum (map (fun x : json => S (jsize x)) items)
            + String.length k
            <= String.length (print_seq print "]" items k))%nat by lia.
    apply (@print_seq_length _ print (fun x => S (jsize x))).
    eapply Forall_impl; [|exact IH].
    intros x Hx k'. specialize (Hx k'). simpl. lia.
  - simpl.
    enough (list_sum (map (fun kv : string * json =>
                             let (_, x) := kv in S (jsize x)) members)
            + String.length k
            <= String.length
                 (print_seq (print_member print) "}" members k))%nat by lia.
    apply (@print_seq_length _ (print_member print)
             (fun kv : string * json => let (_, x) := kv in S (jsize x))).
    eapply Forall_impl; [|exact IH].
    intros [name x] Hx k'. simpl in Hx. unfold print_member.
    pose proof (print_string_length name (String ":" (print x k'))).
    specialize (Hx k'). simpl in *. lia.
Qed.

(** Parsing the text of a value gives the value back. *)
Lemma parse_text_roundtrip (j : json) : parse (text j) = Some j.
Proof.
  unfold parse, text.
  destruct (parse_print_all (S (2 * String.length (print j "")))) as (Hv & _).
  rewrite Hv; [reflexivity| |exact I].
  pose proof (print_length j ""). simpl in *. lia.
Qed.

End CodecFacts.

#[export] Instance codec_engine_laws : EngineLaws codec_engine := {|
  parse_text := CodecFacts.parse_text_roundtrip
|}.

(** ** Query strings: parsing inverts serialization *)

Module URLFacts.
Import URLSearchParams.

Local Open Scope string_scope.

Lemma all_chars_app (p : ascii -> bool) (a b : string) :
  all_chars p (a ++ b) = all_chars p a && all_chars p b.
Proof.
  induction a as [|c a IH]; simpl; [reflexivity|].
  now rewrite IH, andb_assoc.
Qed.

Lemma all_chars_weaken (p q : ascii -> bool) (s : string) :
  (forall c, p c = true -> q c = true) ->
  all_chars p s = true -> all_chars q s = true.
Proof.
  intros Hpq. induction s as [|c s IH]; simpl; [reflexivity|].
  intros H. apply andb_prop in H as [Hc Hs].
  now rewrite (Hpq _ Hc), IH.
Qed.

Lemma encode_byte_chars (c : ascii) (k : string) :
  all_chars encoded_char (encode_byte c k) = all_chars encoded_char k.
Proof. destruct c as [[] [] [] [] [] [] [] []]; reflexivity. Qed.

Lemma encode_chars (s : string) : all_chars encoded_char (encode s) = true.
Proof.
  induction s as [|c s IH]; simpl; [reflexivity|].
  now rewrite encode_byte_chars.
Qed.

Lemma percent_decode_other (c : ascii) (s : string) :
  Ascii.eqb c "%" = false ->
  percent_decode (String c s) = String c (percent_decode s).
Proof.
  intros Hc. destruct s as [|h [|l rest]]; simpl; try reflexivity.
  now rewrite Hc.
Qed.

Lemma decode_encode_byte (c : ascii) (k : string) :
  decode (encode_byte c k) = String c (decode k).
Proof.
  unfold decode.
  destruct c as [[] [] [] [] [] [] [] []];
    first [reflexivity | apply percent_decode_other; reflexivity].
Qed.

Lemma decode_encode (s : string) : decode (encode s) = s.
Proof.
  induction s as [|c s IH]; simpl; [reflexivity|].
  now rewrite decode_encode_byte, IH.
Qed.

Lemma split_piece (sep : ascii) (piece rest : string) :
  all_chars (fun c => negb (Ascii.eqb c sep)) piece = true ->
  split sep (piece ++ String sep rest) = piece :: split sep rest.
Proof.
  induction piece as [|c piece IH]; simpl.
  - now rewrite Ascii.eqb_refl.
  - intros H. apply andb_prop in H as [Hc Hp].
    apply negb_true_iff in Hc. rewrite Hc, (IH Hp). reflexivity.
Qed.

Lemma split_last (sep : ascii) (piece : string) :
  all_chars (fun c => negb (Ascii.eqb c sep)) piece = true ->
  split sep piece = [piece].
Proof.
  induction piece as [|c piece IH]; simpl; [reflexivity|].
  intros H. apply andb_prop in H as [Hc Hp].
  apply negb_true_iff in Hc. rewrite Hc, (IH Hp). reflexivity.
Qed.

Lemma name_value_cut (n v : string) :
  all_chars (fun c => negb (Ascii.eqb c "=")) n = true ->
  name_value (n ++ String "=" v) = (n, v).
Proof.
  induction n as [|c n IH]; simpl; [reflexivity|].
  intros H. apply andb_prop in H as [Hc Hn].
  apply negb_true_iff in Hc. rewrite Hc, (IH Hn). reflexivity.
Qed.

Lemma encoded_char_not (c d : ascii) :
  encoded_char d = false -> encoded_char c = true ->
  negb (Ascii.eqb c d) = true.
Proof.
  intros Hd Hc. destruct (Ascii.eqb_spec c d) as [->|]; [congruence|reflexivity].
Qed.

Lemma append_assoc (a b c : string) : (a ++ b) ++ c = a ++ (b ++ c).
Proof. induction a as [|x a IH]; simpl; [reflexivity|now rewrite IH]. Qed.

Lemma toString_cons (nv : string * string) (rest : t) :
  toString (nv :: rest)
  = match rest with
    | [] => pair_text nv
    | _ :: _ => pair_text nv ++ String "&" (toString rest)
    end.
Proof.
  destruct nv as [n v]. unfold pair_text.
  destruct rest as [|nv' rest]; [reflexivity|].
  cbn [toString fst snd]. rewrite append_assoc. reflexivity.
Qed.

Lemma pair_text_chars (nv : string * string) :
  all_chars (fun c => negb (Ascii.eqb c "&")) (pair_text nv) = true
  /\ all_chars (fun c => negb (Ascii.eqb c "?")) (pair_text nv) = true
  /\ pair_text nv <> EmptyString.
Proof.
  unfold pair_text.
  split; [|split].
  - rewrite all_chars_app. simpl.
    rewrite !(@all_chars_weaken encoded_char _ (encode _));
      try apply encode_chars; try reflexivity;
      intros c; now apply encoded_char_not.
  - rewrite all_chars_app. simpl.
    rewrite !(@all_chars_weaken encoded_char _ (encode _));
      try apply encode_chars; try reflexivity;
      intros c; now apply encoded_char_not.
  - destruct (encode (fst nv)); discriminate.
Qed.

Lemma pieces_toString (params : t) :
  map parse_piece (filter nonempty (split "&" (toString params))) = params.
Proof.
  assert (Hpiece : forall nv, parse_piece (pair_text nv) = nv).
  { intros [n v]. unfold parse_piece, pair_text. simpl fst. simpl snd.
    rewrite name_value_cut, !decode_encode; [reflexivity|].
    apply (@all_chars_weaken encoded_char); [|apply encode_chars].
    intros c. now apply encoded_char_not. }
  assert (Hne : forall nv, nonempty (pair_text nv) = true).
  { intros nv. destruct (pair_text_chars nv) as (_ & _ & Hnv). unfold nonempty.
    destruct (String.eqb_spec (pair_text nv) EmptyString);
      [contradiction|reflexivity]. }
  induction params as [|nv params IH]; [reflexivity|].
  rewrite toString_cons. destruct params as [|nv' params].
  - rewrite split_last by apply pair_text_chars.
    cbn [filter]. rewrite Hne. cbn [map]. now rewrite Hpiece.
  - rewrite split_piece by apply pair_text_chars.
    cbn [filter]. rewrite Hne. cbn [map]. now rewrite Hpiece, IH.
Qed.

(** Parsing the serialized parameters gives the parameters back. *)
Lemma new_toString (params : t) : new (toString params) = params.
Proof.
  unfold new.
  assert (Hq : match toString params with
               | String c tl => if Ascii.eqb c "?" then tl else toString params
               | EmptyString => toString params
               end = toString params).
  { destruct params as [|nv params]; [reflexivity|].
    rewrite toString_cons.
    destruct (pair_text_chars nv) as (_ & Hq & Hne).
    destruct (pair_text nv) as [|c s] eqn:Hp; [contradiction|].
    simpl in Hq. apply andb_prop in Hq as [Hc _].
    apply negb_true_iff in Hc.
    destruct params; simpl; now rewrite Hc. }
  rewrite Hq. apply pieces_toString.
Qed.

End URLFacts.

(** ** Facts about the store *)

Local Open Scope list_scope.

Section StoreFacts.

Implicit Types (st kept rest : Storage) (k v : string).

Lemma getItem_None_iff st k : getItem st k = None <-> ~ In k (keys st).
Proof.
  induction st as [|[k' v'] st IH]; simpl.
  - tauto.
  - destruct (String.eqb_spec k' k) as [->|Hne].
    + split; [discriminate|]. intros H. exfalso. apply H. now left.
    + rewrite IH. split; [intros H [Heq|Hin]; [congruence|tauto]|tauto].
Qed.

Lemma getItem_In st k v : getItem st k = Some v -> In (k, v) st.
Proof.
  induction st as [|[k' v'] st IH]; simpl; [discriminate|].
  destruct (String.eqb_spec k' k) as [->|Hne].
  - intros [= ->]. now left.
  - intros H. right. exact (IH H).
Qed.

Lemma In_getItem st k v : Storage_wf st -> In (k, v) st -> getItem st k = Some v.
Proof.
  unfold Storage_wf.
  induction st as [|[k' v'] st IH]; simpl; [contradiction|].
  intros Hnd [Heq|Hin].
  - injection Heq as -> ->. now rewrite String.eqb_refl.
  - inversion Hnd as [|? ? Hnotin Hnd']; subst.
    destruct (String.eqb_spec k' k) as [->|Hne].
    + exfalso. apply Hnotin. unfold keys.
      change k with (fst (k, v)). now apply in_map.
    + now apply IH.
Qed.

Lemma removeItem_fresh st k : ~ In k (keys st) -> removeItem st k = st.
Proof.
  unfold removeItem. induction st as [|[k' v'] st IH]; simpl; [reflexivity|].
  intros Hnotin. destruct (String.eqb_spec k' k) as [->|Hne]; [tauto|].
  simpl. f_equal. apply IH. tauto.
Qed.

Lemma removeItem_middle kept rest k v :
  Storage_wf (kept ++ (k, v) :: rest) ->
  removeItem (kept ++ (k, v) :: rest) k = kept ++ rest.
Proof.
  unfold Storage_wf, keys. rewrite map_app. simpl. intros Hnd.
  apply NoDup_remove in Hnd as [_ Hnotin].
  rewrite in_app_iff in Hnotin.
  unfold removeItem. rewrite filter_app. simpl.
  rewrite String.eqb_refl. simpl.
  f_equal; apply removeItem_fresh; tauto.
Qed.

Lemma key_middle kept rest k v :
  key (kept ++ (k, v) :: rest) (length kept) = Some k.
Proof.
  unfold key, keys. rewrite map_app. simpl.
  rewrite nth_error_app2 by (rewrite length_map; lia).
  rewrite length_map, Nat.sub_diag. reflexivity.
Qed.

Lemma key_end st : key st (length st) = None.
Proof.
  unfold key, keys. apply nth_error_None. rewrite length_map. lia.
Qed.

Lemma getItem_middle kept rest k v :
  Storage_wf (kept ++ (k, v) :: rest) ->
  getItem (kept ++ (k, v) :: rest) k = Some v.
Proof.
  intros Hwf. apply In_getItem; [exact Hwf|].
  apply in_or_app. right. now left.
Qed.

Lemma Storage_wf_filter (f : string * string -> bool) st :
  Storage_wf st -> Storage_wf (filter f st).
Proof.
  unfold Storage_wf, keys. induction st as [|[k v] st IH]; simpl; [auto|].
  intros Hnd. inversion Hnd as [|? ? Hnotin Hnd']; subst.
  destruct (f (k, v)); simpl; [|auto].
  constructor; [|auto].
  intros Hin. apply Hnotin. apply in_map_iff in Hin as (kv & Hk & Hin).
  apply filter_In in Hin as [Hin _]. apply in_map_iff. eauto.
Qed.

Lemma getItem_setItem st k v : getItem (setItem st k v) k = Some v.
Proof.
  induction st as [|[k' v'] st IH]; simpl.
  - now rewrite String.eqb_refl.
  - destruct (String.eqb_spec k' k) as [->|Hne]; simpl.
    + now rewrite String.eqb_refl.
    + destruct (String.eqb_spec k' k); [contradiction|exact IH].
Qed.

Lemma getItem_setItem_other st k k' v :
  k' <> k -> getItem (setItem st k v) k' = getItem st k'.
Proof.
  intros Hne. induction st as [|[k0 v0] st IH]; simpl.
  - destruct (String.eqb_spec k k'); [congruence|reflexivity].
  - destruct (String.eqb_spec k0 k) as [->|Hne0]; simpl.
    + destruct (String.eqb_spec k k'); [congruence|reflexivity].
    + destruct (String.eqb_spec k0 k'); [reflexivity|exact IH].
Qed.

Lemma keys_setItem st k v :
  keys (setItem st k v) =
  match getItem st k with Some _ => keys st | None => keys st ++ [k] end.
Proof.
  induction st as [|[k0 v0] st IH]; simpl; [reflexivity|].
  destruct (String.eqb_spec k0 k) as [->|Hne]; simpl; [reflexivity|].
  rewrite IH. destruct (getItem st k); reflexivity.
Qed.

Lemma Storage_wf_setItem st k v : Storage_wf st -> Storage_wf (setItem st k v).
Proof.
  unfold Storage_wf. rewrite keys_setItem. intros Hnd.
  destruct (getItem st k) eqn:Hget; [exact Hnd|].
  apply getItem_None_iff in Hget.
  apply NoDup_app; [exact Hnd|repeat constructor; simpl; tauto|].
  intros x Hx [<-|[]]. contradiction.
Qed.

End StoreFacts.

(** ** The sweep, entry by entry *)

Section Sweep.

Context {E : Engine}.

Implicit Types (st kept rest : Storage) (k v : string).

Lemma cleanup_loop_body st (i : nat) :
  cleanup_loop st i =
  match key st i with
  | None => (st, Normal tt)
  | Some storageKey =>
      match JSON_parse (DOMString (getItem st storageKey)) with
      | None => (st, Throw SyntaxError)
      | Some storageItem =>
          match isRedirectData storageItem with
          | Throw e => (st, Throw e)
          | Normal true => cleanup_loop (removeItem st storageKey) i
          | Normal false => cleanup_loop st (S i)
          end
      end
  end.
Proof.
  funelim (cleanup_loop st i);
    repeat match goal with
           | H : _ = _ |- _ => rewrite H
           end; reflexivity.
Qed.

(** The index loop, started behind the entries it has kept, does what
    [sweep] does on the entries that remain. *)
Lemma cleanup_loop_sweep rest : forall kept,
  Storage_wf (kept ++ rest) ->
  cleanup_loop (kept ++ rest) (length kept)
  = (kept ++ fst (sweep rest), snd (sweep rest)).
Proof.
  induction rest as [|[k v] rest IH]; intros kept Hwf.
  - rewrite cleanup_loop_body, List.app_nil_r, key_end. simpl.
    now rewrite List.app_nil_r.
  - rewrite cleanup_loop_body, key_middle, getItem_middle by exact Hwf.
    simpl. destruct (JSON_parse v) as [item|]; [|reflexivity].
    destruct (isRedirectData item) as [[|]|e]; [| |reflexivity].
    + rewrite removeItem_middle by exact Hwf. apply IH.
      unfold Storage_wf, keys in *. rewrite map_app in *. simpl in Hwf.
      now apply NoDup_remove_1 in Hwf.
    + specialize (IH (kept ++ [(k, v)])).
      rewrite <- List.app_assoc, List.length_app, Nat.add_comm in IH. simpl in IH.
      rewrite IH by exact Hwf.
      destruct (sweep rest) as [rest' o]. simpl. now rewrite <- List.app_assoc.
Qed.

Theorem CleanupLocalStorage_sweep st :
  Storage_wf st -> CleanupLocalStorage st = sweep st.
Proof.
  intros Hwf. unfold CleanupLocalStorage.
  pose proof (cleanup_loop_sweep st [] Hwf) as H. simpl in H.
  rewrite H. now destruct (sweep st).
Qed.

Lemma isRedirectData_throws (item : json) (e : exn) :
  isRedirectData item = Throw e -> item = JNull /\ e = TypeError.
Proof.
  unfold isRedirectData, prop.
  destruct item; try (intros [= <-]; now split);
    repeat match goal with
           | |- context [match ?x with _ => _ end] => destruct x
           end; discriminate.
Qed.

(** A sweep that meets only inspectable values does not raise and
    removes exactly the handshake entries. *)
Lemma sweep_inspectable st :
  forallb (fun kv => inspectable (snd kv)) st = true ->
  sweep st = (filter (fun kv => negb (parses_as_handshake (snd kv))) st,
              Normal tt).
Proof.
  induction st as [|[k v] st IH]; simpl; [reflexivity|].
  unfold inspectable, parses_as_handshake at 1. simpl.
  destruct (JSON_parse v) as [item|]; [|discriminate].
  destruct (isRedirectData item) as [[|]|e] eqn:Hrd.
  - destruct item; simpl; try discriminate; intros H; now apply IH.
  - destruct item; simpl; try discriminate; intros H; now rewrite IH.
  - apply isRedirectData_throws in Hrd as [-> _]. discriminate.
Qed.

(** A sweep that does not raise has met only inspectable values. *)
Lemma sweep_normal_inspectable st :
  snd (sweep st) = Normal tt ->
  forallb (fun kv => inspectable (snd kv)) st = true.
Proof.
  induction st as [|[k v] st IH]; simpl; [reflexivity|].
  unfold inspectable at 1.
  destruct (JSON_parse v) as [item|]; [|discriminate].
  destruct (isRedirectData item) as [[|]|e] eqn:Hrd; simpl.
  - intros H. rewrite (IH H). destruct item; try reflexivity. discriminate.
  - destruct (sweep st) as [rest' o]. simpl in *.
    intros H. rewrite (IH H). destruct item; try reflexivity. discriminate.
  - discriminate.
Qed.

(** Whatever the sweep's outcome, an entry that does not parse as a
    handshake is still in the store afterwards. *)
Lemma sweep_keeps st (kv : string * string) :
  In kv st -> parses_as_handshake (snd kv) = false -> In kv (fst (sweep st)).
Proof.
  induction st as [|[k v] st IH]; simpl; [contradiction|].
  intros Hin Hkv.
  destruct (JSON_parse v) as [item|] eqn:Hp; [|exact Hin].
  destruct (isRedirectData item) as [[|]|e] eqn:Hrd; [| |exact Hin].
  - destruct Hin as [<-|Hin]; [|now apply IH].
    unfold parses_as_handshake in Hkv. simpl in Hkv.
    rewrite Hp, Hrd in Hkv. discriminate.
  - destruct (sweep st) as [rest' o]. simpl in *.
    destruct Hin as [<-|Hin]; [now left|right; now apply IH].
Qed.

(** The sweep adds nothing and rewrites nothing. *)
Lemma sweep_incl st (kv : string * string) :
  In kv (fst (sweep st)) -> In kv st.
Proof.
  induction st as [|[k v] st IH]; simpl; [contradiction|].
  destruct (JSON_parse v) as [item|]; [|exact (fun H => H)].
  destruct (isRedirectData item) as [[|]|e]; [| |exact (fun H => H)].
  - intros H. right. now apply IH.
  - destruct (sweep st) as [rest' o]. simpl in *.
    intros [<-|H]; [now left|right; now apply IH].
Qed.

Lemma filter_no_handshake st :
  holds_handshake
    (filter (fun kv => negb (parses_as_handshake (snd kv))) st) = false.
Proof.
  unfold holds_handshake.
  induction st as [|[k v] st IH]; simpl; [reflexivity|].
  destruct (parses_as_handshake v) eqn:Hv; simpl; [exact IH|].
  now rewrite Hv.
Qed.

Lemma filter_inspectable (f : string * string -> bool) st :
  forallb (fun kv => inspectable (snd kv)) st = true ->
  forallb (fun kv => inspectable (snd kv)) (filter f st) = true.
Proof.
  induction st as [|[k v] st IH]; simpl; [reflexivity|].
  intros H. apply andb_prop in H as [Hv Hst].
  destruct (f (k, v)); simpl; [rewrite Hv|]; auto.
Qed.

Lemma filter_fixed st :
  holds_handshake st = false ->
  filter (fun kv => negb (parses_as_handshake (snd kv))) st = st.
Proof.
  unfold holds_handshake.
  induction st as [|[k v] st IH]; simpl; [reflexivity|].
  intros H. apply orb_false_elim in H as [Hv Hst].
  rewrite Hv. simpl. now rewrite IH.
Qed.

(** Cleanup never removes, adds or rewrites an entry that does not parse
    as a handshake, whether it returns or raises. *)
Theorem Cleanup_leaves_other_entries st (kv : string * string) :
  Storage_wf st ->
  (In kv st -> parses_as_handshake (snd kv) = false ->
   In kv (fst (CleanupLocalStorage st)))
  /\ (In kv (fst (CleanupLocalStorage st)) -> In kv st).
Proof.
  intros Hwf. rewrite (CleanupLocalStorage_sweep Hwf).
  split; [apply sweep_keeps|apply sweep_incl].
Qed.

(** On a store whose values are all JSON text of non-null values,
    Cleanup returns, and what it leaves is the store without its
    handshake entries. *)
Theorem Cleanup_removes_handshakes st :
  Storage_wf st ->
  forallb (fun kv => inspectable (snd kv)) st = true ->
  CleanupLocalStorage st
  = (filter (fun kv => negb (parses_as_handshake (snd kv))) st, Normal tt)
  /\ holds_handshake (fst (CleanupLocalStorage st)) = false.
Proof.
  intros Hwf Hall.
  rewrite (CleanupLocalStorage_sweep Hwf), (sweep_inspectable _ Hall).
  split; [reflexivity|apply filter_no_handshake].
Qed.

(** Cleanup raises exactly when some value is not inspectable. *)
Theorem Cleanup_returns_iff st :
  Storage_wf st ->
  snd (CleanupLocalStorage st) = Normal tt
  <-> forallb (fun kv => inspectable (snd kv)) st = true.
Proof.
  intros Hwf. rewrite (CleanupLocalStorage_sweep Hwf). split.
  - apply sweep_normal_inspectable.
  - intros Hall. now rewrite (sweep_inspectable _ Hall).
Qed.

End Sweep.

(** ** Completing a handshake *)

Section Complete.

Context {E : Engine}.

Implicit Types (st : Storage) (env : Env).

Lemma Complete_missing env st :
  query env "code" = None \/ query env "state" = None ->
  handleNkLoginReturn env st
  = (fst (CleanupLocalStorage st),
     match snd (CleanupLocalStorage st) with
     | Normal _ => Throw MissingParameters
     | Throw e => Throw e
     end).
Proof.
  unfold query, handleNkLoginReturn, bind, throw. intros Hq.
  destruct (URLSearchParams.get _ "code") as [c|];
    destruct (URLSearchParams.get _ "state") as [tok|];
    try (destruct Hq; discriminate);
    destruct (CleanupLocalStorage st) as [st' [[]|e]]; reflexivity.
Qed.

Lemma Complete_present env st (c tok : string) :
  query env "code" = Some c -> query env "state" = Some tok ->
  handleNkLoginReturn env st
  = (fst (CleanupLocalStorage st),
     match snd (CleanupLocalStorage st) with
     | Normal _ => validate env c (getItem st tok)
     | Throw e => Throw e
     end).
Proof.
  unfold query, handleNkLoginReturn, bind, throw, lift, ret, validate.
  intros -> ->.
  destruct (CleanupLocalStorage st) as [st' [[]|e]]; simpl; [|reflexivity].
  destruct (getItem st tok) as [text|]; [|reflexivity].
  destruct (JSON_parse text) as [stateBody|]; [|reflexivity].
  destruct (prop stateBody "expiresOn") as [expiresOn|e]; [|reflexivity].
  destruct (js_gt expiresOn (Date_now env)); [reflexivity|].
  destruct (prop stateBody "state"); reflexivity.
Qed.

(** The handler touches the store through the sweep only. *)
Lemma Complete_store env st :
  fst (handleNkLoginReturn env st) = fst (CleanupLocalStorage st).
Proof.
  destruct (query env "code") as [c|] eqn:Hc.
  - destruct (query env "state") as [tok|] eqn:Hs.
    + now rewrite (Complete_present _ _ Hc Hs).
    + rewrite Complete_missing by now right. reflexivity.
  - rewrite Complete_missing by now left. reflexivity.
Qed.

(** The outcome of an attempt whose sweep meets only inspectable
    values: the store keeps exactly the entries that are no handshakes,
    and the outcome is decided by the parameters and the record. *)
Lemma Complete_inspectable env st :
  Storage_wf st ->
  forallb (fun kv => inspectable (snd kv)) st = true ->
  handleNkLoginReturn env st
  = (filter (fun kv => negb (parses_as_handshake (snd kv))) st,
     match query env "code", query env "state" with
     | Some c, Some tok => validate env c (getItem st tok)
     | _, _ => Throw MissingParameters
     end).
Proof.
  intros Hwf Hall.
  pose proof (CleanupLocalStorage_sweep Hwf) as Hs.
  rewrite (sweep_inspectable _ Hall) in Hs.
  destruct (query env "code") as [c|] eqn:Hc.
  - destruct (query env "state") as [tok|] eqn:Ht.
    + rewrite (Complete_present _ _ Hc Ht), Hs. reflexivity.
    + rewrite Complete_missing by now right. rewrite Hs. reflexivity.
  - rewrite Complete_missing by now left. rewrite Hs. reflexivity.
Qed.

(** With both parameters present and no entry under the [state] value,
    the attempt fails with [UnknownOrExpiredToken] after the sweep. *)
Lemma Complete_unknown_token env st (c tok : string) :
  Storage_wf st ->
  forallb (fun kv => inspectable (snd kv)) st = true ->
  query env "code" = Some c -> query env "state" = Some tok ->
  getItem st tok = None ->
  handleNkLoginReturn env st
  = (filter (fun kv => negb (parses_as_handshake (snd kv))) st,
     Throw UnknownOrExpiredToken).
Proof.
  intros Hwf Hall Hc Ht Hget.
  rewrite (Complete_inspectable env Hwf Hall), Hc, Ht, Hget. reflexivity.
Qed.

(** With a parameter missing, the attempt fails with
    [MissingParameters] after the sweep. *)
Lemma Complete_missing_parameters env st :
  Storage_wf st ->
  forallb (fun kv => inspectable (snd kv)) st = true ->
  query env "code" = None \/ query env "state" = None ->
  handleNkLoginReturn env st
  = (filter (fun kv => negb (parses_as_handshake (snd kv))) st,
     Throw MissingParameters)
  /\ holds_handshake (fst (handleNkLoginReturn env st)) = false.
Proof.
  intros Hwf Hall Hq.
  rewrite (Complete_inspectable env Hwf Hall).
  split; [|apply filter_no_handshake].
  destruct Hq as [-> | ->]; [reflexivity|].
  destruct (query env "code"); reflexivity.
Qed.

(** The expiry test as the code performs it: a record whose
    [expiresOn] is the number [e] is turned away exactly when [e] lies
    in the future. *)
Lemma Complete_expiry env st (c tok text : string)
      (members : list (string * json)) (e : Z) (s : json) :
  Storage_wf st ->
  forallb (fun kv => inspectable (snd kv)) st = true ->
  query env "code" = Some c -> query env "state" = Some tok ->
  getItem st tok = Some text ->
  JSON_parse text = Some (JObj members) ->
  lookup_last members "expiresOn" = Some (JNum e) ->
  lookup_last members "state" = Some s ->
  snd (handleNkLoginReturn env st)
  = if Date_now env <? e then Throw HandshakeExpired
    else Normal {| state := Some s; code := c |}.
Proof.
  intros Hwf Hall Hc Ht Hget Hparse He Hs.
  rewrite (Complete_inspectable env Hwf Hall), Hc, Ht, Hget. simpl.
  unfold validate. rewrite Hparse. simpl. rewrite He, Hs.
  unfold js_gt. simpl. reflexivity.
Qed.

Lemma sweep_throws st (e : exn) :
  snd (sweep st) = Throw e -> e = SyntaxError \/ e = TypeError.
Proof.
  induction st as [|[k v] st IH]; simpl; [discriminate|].
  destruct (JSON_parse v) as [item|]; [|intros [= <-]; now left].
  destruct (isRedirectData item) as [[|]|e'] eqn:Hrd.
  - exact IH.
  - destruct (sweep st) as [rest' o]. exact IH.
  - apply isRedirectData_throws in Hrd as [_ ->]. intros [= <-]. now right.
Qed.

(** An attempt that returns, or fails with one of its own three
    errors, leaves no handshake entry behind. *)
Lemma Complete_leaves_no_handshake env st :
  Storage_wf st ->
  (forall e, snd (handleNkLoginReturn env st) = Throw e -> exists msg, e = Error msg) ->
  holds_handshake (fst (handleNkLoginReturn env st)) = false.
Proof.
  intros Hwf Hout.
  assert (Hn : snd (sweep st) = Normal tt).
  { destruct (snd (sweep st)) as [[]|e] eqn:Hs; [reflexivity|exfalso].
    assert (He : snd (handleNkLoginReturn env st) = Throw e).
    { destruct (query env "code") as [c|] eqn:Hc;
        [destruct (query env "state") as [tok|] eqn:Ht|].
      - rewrite (Complete_present _ _ Hc Ht), (CleanupLocalStorage_sweep Hwf).
        simpl. now rewrite Hs.
      - rewrite Complete_missing by now right.
        rewrite (CleanupLocalStorage_sweep Hwf). simpl. now rewrite Hs.
      - rewrite Complete_missing by now left.
        rewrite (CleanupLocalStorage_sweep Hwf). simpl. now rewrite Hs. }
    destruct (Hout _ He) as [msg ->].
    destruct (sweep_throws _ Hs); discriminate. }
  rewrite Complete_store, (CleanupLocalStorage_sweep Hwf).
  rewrite (sweep_inspectable _ (sweep_normal_inspectable _ Hn)).
  apply filter_no_handshake.
Qed.

End Complete.

(** ** Initiating a handshake, and the two calls together *)

Section Handshake.

Context {E : Engine} {L : EngineLaws E}.

Implicit Types (st : Storage) (env : Env).

Lemma Initiate_run env (S : value) (jS : json) st :
  to_json S = Some jS ->
  handleNkLoginRequest env S st
  = (setItem st (nanoid env 15)
             (JSON_text (pending_record jS (Date_now env + 60000))),
     Normal ("https://oauth-logbook.nksports.com/oauth/authorize?"
               ++ URLSearchParams.toString (authorize_params env))%string).
Proof.
  intros HS. unfold handleNkLoginRequest, JSON_stringify. simpl.
  rewrite HS. reflexivity.
Qed.

Lemma pending_record_inspectable (s : json) (e : Z) :
  inspectable (JSON_text (pending_record s e)) = true
  /\ parses_as_handshake (JSON_text (pending_record s e)) = true.
Proof.
  unfold inspectable, parses_as_handshake. rewrite parse_text. simpl.
  split; reflexivity.
Qed.

Lemma forallb_setItem (f : string -> bool) st (k v : string) :
  forallb (fun kv => f (snd kv)) st = true -> f v = true ->
  forallb (fun kv => f (snd kv)) (setItem st k v) = true.
Proof.
  intros Hst Hv. induction st as [|[k' v'] st IH]; simpl in *.
  - now rewrite Hv.
  - apply andb_prop in Hst as [H1 H2].
    destruct (String.eqb k' k); simpl; [now rewrite Hv|].
    now rewrite H1, IH.
Qed.

(** Initiate, then Complete on the provider's redirect: the outcome is
    decided by the clock alone, and the record is turned away for as
    long as its window is open. *)
Lemma Initiate_then_Complete env0 env1 (S : value) (jS : json) (c : string) st :
  Storage_wf st ->
  forallb (fun kv => inspectable (snd kv)) st = true ->
  to_json S = Some jS ->
  query env1 "code" = Some c ->
  query env1 "state" = Some (nanoid env0 15) ->
  snd (handleNkLoginReturn env1 (fst (handleNkLoginRequest env0 S st)))
  = if Date_now env1 <? Date_now env0 + 60000
    then Throw HandshakeExpired
    else Normal {| state := Some jS; code := c |}.
Proof.
  intros Hwf Hall HS Hc Ht. rewrite (@Initiate_run env0 S jS st HS). simpl fst.
  eapply Complete_expiry with (members := [("state", jS); ("expiresOn", _)]);
    try eassumption.
  - now apply Storage_wf_setItem.
  - apply (forallb_setItem inspectable); [exact Hall|].
    apply pending_record_inspectable.
  - apply getItem_setItem.
  - apply parse_text.
  - reflexivity.
  - reflexivity.
Qed.


(** [C9] The state a successful Complete returns after Initiate(S) is
    the JSON round trip of [S], not [S] itself: for every serializable
    [S], if Complete runs on the store Initiate left, with the issued
    token as the [state] parameter, and returns [r], then [r]'s state is
    [JSON.parse(JSON.stringify(S))] and [r]'s code is the [code]
    parameter; so the returned state, read as a plain value, is [S]
    exactly when [S] is a fixed point of the round trip. *)
Theorem Complete_returns_JSON_round_trip
        env0 env1 (S : value) (jS : json) st st'' (r : IRedirectReturn) :
  to_json S = Some jS ->
  query env1 "state" = Some (nanoid env0 15) ->
  handleNkLoginReturn env1 (fst (handleNkLoginRequest env0 S st))
  = (st'', Normal r) ->
  state r = JSON_roundtrip S
  /\ JSON_roundtrip S = Some jS
  /\ query env1 "code" = Some (code r)
  /\ (option_map of_json (state r) = Some S
      <-> option_map of_json (JSON_roundtrip S) = Some S).
Proof.
  intros HS Ht Hrun.
  assert (Hrt : JSON_roundtrip S = Some jS).
  { unfold JSON_roundtrip, JSON_stringify. rewrite HS. simpl. apply parse_text. }
  rewrite (@Initiate_run env0 S jS st HS) in Hrun. simpl fst in Hrun.
  destruct (query env1 "code") as [c|] eqn:Hc.
  - rewrite (Complete_present _ _ Hc Ht) in Hrun.
    injection Hrun as _ Hout.
    destruct (snd (CleanupLocalStorage _)) as [[]|e]; [|discriminate].
    rewrite getItem_setItem in Hout. unfold validate in Hout.
    rewrite parse_text in Hout. simpl in Hout.
    destruct (js_gt _ _); [discriminate|].
    injection Hout as <-. simpl. rewrite Hrt. repeat split; auto.
  - rewrite Complete_missing in Hrun by now left.
    injection Hrun as _ Hout.
    destruct (snd (CleanupLocalStorage _)); discriminate.
Qed.

End Handshake.

(** ** A record is consumed by the attempt that reads it *)

Section SingleUse.

Context {E : Engine}.

Implicit Types (st : Storage) (env : Env).

(** [C10], amended.  After a Complete attempt in which both parameters
    were present and whose sweep did not raise, if the entry stored
    under the [state] value was absent or had the handshake shape, a
    second Complete against the same URL leaves the store as it is and
    fails with [UnknownOrExpiredToken]. *)
Theorem second_Complete_fails_unknown_token env1 env2 st (c tok : string) :
  Storage_wf st ->
  snd (CleanupLocalStorage st) = Normal tt ->
  query env1 "code" = Some c ->
  query env1 "state" = Some tok ->
  location_search env2 = location_search env1 ->
  match getItem st tok with
  | Some text => parses_as_handshake text
  | None => true
  end = true ->
  handleNkLoginReturn env2 (fst (handleNkLoginReturn env1 st))
  = (fst (handleNkLoginReturn env1 st), Throw UnknownOrExpiredToken).
Proof.
  intros Hwf Hsweep Hc Ht Hsearch Hrec.
  rewrite (CleanupLocalStorage_sweep Hwf) in Hsweep.
  pose proof (sweep_normal_inspectable _ Hsweep) as Hall.
  rewrite (Complete_inspectable env1 Hwf Hall). simpl fst.
  set (st1 := filter (fun kv => negb (parses_as_handshake (snd kv))) st).
  assert (Hwf1 : Storage_wf st1) by now apply Storage_wf_filter.
  assert (Hall1 : forallb (fun kv => inspectable (snd kv)) st1 = true)
    by now apply filter_inspectable.
  assert (Hget : getItem st1 tok = None).
  { destruct (getItem st1 tok) as [text|] eqn:Hg; [exfalso|reflexivity].
    apply getItem_In in Hg. apply filter_In in Hg as [Hin Hno].
    rewrite (@In_getItem st tok text Hwf Hin) in Hrec. simpl in Hno.
    rewrite Hrec in Hno. discriminate. }
  assert (Hc2 : query env2 "code" = Some c)
    by (unfold query in *; now rewrite Hsearch).
  assert (Ht2 : query env2 "state" = Some tok)
    by (unfold query in *; now rewrite Hsearch).
  rewrite (Complete_unknown_token env2 Hwf1 Hall1 Hc2 Ht2 Hget).
  rewrite (filter_fixed st1) by apply filter_no_handshake. reflexivity.
Qed.

End SingleUse.

(** ** Concrete runs on the concrete engine *)

Module Runs.
Import Sample.

Local Open Scope string_scope.

(** [C1] The expiry test runs the wrong way round: at time [now], the
    record that expired one millisecond ago is accepted and its state
    returned with the code, and the record that stays valid for another
    second is turned away with [HandshakeExpired]. *)
Theorem expiry_boundary_inverted :
  handleNkLoginReturn (browser now "?code=abc123&state=tok")
                      [("tok", record_text (now - 1))]
  = ([], Normal {| state := Some page_json; code := "abc123" |})
  /\ handleNkLoginReturn (browser now "?code=abc123&state=tok")
                         [("tok", record_text (now + 1000))]
     = ([], Throw HandshakeExpired).
Proof. split; vm_compute; reflexivity. Qed.

(** [C2] Initiate, then the provider's redirect five milliseconds
    later with the issued token and a code: Complete does not return
    [{state: S, code}], it fails with [HandshakeExpired]. *)
Theorem round_trip_within_window_fails :
  let env0 := browser now "" in
  let st' := fst (handleNkLoginRequest env0 page []) in
  let env1 := browser (now + 5) ("?code=abc123&state=" ++ nanoid env0 15) in
  st' = [("V1StGXR8_Z5jdHi", record_text (now + 60000))]
  /\ query env1 "code" = Some "abc123"
  /\ query env1 "state" = Some (nanoid env0 15)
  /\ handleNkLoginReturn env1 st' = ([], Throw HandshakeExpired).
Proof. repeat split; vm_compute; reflexivity. Qed.

(** [C3] A Complete attempt that leaves a handshake record behind: the
    sweep stops with a [SyntaxError] at the entry that is no JSON text,
    before it reaches the record. *)
Theorem Complete_leaves_handshake_behind :
  let st := [theme; ("tok", record_text (now + 60000))] in
  handleNkLoginReturn (browser now "?code=abc123&state=tok") st
  = (st, Throw SyntaxError)
  /\ holds_handshake st = true.
Proof. split; vm_compute; reflexivity. Qed.

(** [C4] A URL without [code]: the failure surfaced is the sweep's
    [SyntaxError], not [MissingParameters], and the handshake record is
    still in the store. *)
Theorem missing_code_surfaces_sweep_error :
  let env := browser now "?state=tok" in
  let st := [theme; ("tok", record_text (now + 60000))] in
  query env "code" = None
  /\ handleNkLoginReturn env st = (st, Throw SyntaxError)
  /\ holds_handshake (fst (handleNkLoginReturn env st)) = true.
Proof. repeat split; vm_compute; reflexivity. Qed.

(** [C5] Both parameters present and nothing stored under the [state]
    value: the failure surfaced is the sweep's [SyntaxError], not
    [UnknownOrExpiredToken]. *)
Theorem unknown_token_surfaces_sweep_error :
  let env := browser now "?code=abc123&state=nosuchtoken" in
  getItem [theme] "nosuchtoken" = None
  /\ query env "code" = Some "abc123"
  /\ query env "state" = Some "nosuchtoken"
  /\ handleNkLoginReturn env [theme] = ([theme], Throw SyntaxError).
Proof. repeat split; vm_compute; reflexivity. Qed.

(** [C6] Cleanup raises on unrelated entries: a [SyntaxError] on a
    value that is no JSON text, a [TypeError] on the JSON text [null]. *)
Theorem Cleanup_raises_on_unrelated_entries :
  CleanupLocalStorage [theme] = ([theme], Throw SyntaxError)
  /\ CleanupLocalStorage [("lastVisit", "null")]
     = ([("lastVisit", "null")], Throw TypeError).
Proof. split; vm_compute; reflexivity. Qed.

(** [C7] One unrelated entry and one expired handshake entry: Cleanup
    raises at the unrelated entry and the store keeps both. *)
Theorem Cleanup_keeps_expired_handshake :
  let st := [theme; ("tok", record_text (now - 1))] in
  parses_as_handshake (record_text (now - 1)) = true
  /\ CleanupLocalStorage st = (st, Throw SyntaxError).
Proof. split; vm_compute; reflexivity. Qed.

(** On an unrelated entry that is JSON text the same sweep does what
    [C7] describes. *)
Example Cleanup_sweep_isolation :
  CleanupLocalStorage
    [("prefs", JSON_text (JObj [("units", JStr "metric")]));
     ("tok", record_text (now - 1))]
  = ([("prefs", JSON_text (JObj [("units", JStr "metric")]))], Normal tt).
Proof. vm_compute; reflexivity. Qed.



(** Witness of [Complete_returns_JSON_round_trip]: the redirect comes
    back when the clock reads [now + 60000]; the state returned has lost
    the function and the undefined member. *)
Lemma Complete_returns_JSON_round_trip_witness :
  let env0 := browser now "" in
  let env1 := browser (now + 60000) "?code=abc123&state=V1StGXR8_Z5jdHi" in
  let r := {| state := Some page_json; code := "abc123" |} in
  to_json page_with_callback = Some page_json
  /\ query env1 "state" = Some (nanoid env0 15)
  /\ handleNkLoginReturn env1 (fst (handleNkLoginRequest env0 page_with_callback []))
     = ([], Normal r)
  /\ state r = JSON_roundtrip page_with_callback
  /\ option_map of_json (state r) <> Some page_with_callback.
Proof.
  cbv zeta.
  assert (H1 : to_json page_with_callback = Some page_json) by reflexivity.
  assert (H2 : query (browser (now + 60000) "?code=abc123&state=V1StGXR8_Z5jdHi")
                     "state"
               = Some (nanoid (browser now "") 15)) by reflexivity.
  assert (H3 : handleNkLoginReturn
                 (browser (now + 60000) "?code=abc123&state=V1StGXR8_Z5jdHi")
                 (fst (handleNkLoginRequest (browser now "") page_with_callback []))
               = ([], Normal {| state := Some page_json; code := "abc123" |}))
    by (vm_compute; reflexivity).
  destruct (@Complete_returns_JSON_round_trip
              codec_engine codec_engine_laws _ _ _ _ _ _ _ H1 H2 H3)
    as (Hstate & _).
  repeat split; try assumption. discriminate.
Defined.

(** [C10] as stated fails: the entry under the [state] value is JSON
    text without the two fields, the sweep leaves it alone, and the
    second attempt against the same URL returns as the first did instead
    of failing with [UnknownOrExpiredToken]. *)
Lemma second_Complete_succeeds_again :
  let env := browser now "?code=abc123&state=prefs" in
  let st := [("prefs", JSON_text (JObj [("units", JStr "metric")]))] in
  query env "code" = Some "abc123"
  /\ query env "state" = Some "prefs"
  /\ handleNkLoginReturn env st
     = (st, Normal {| state := None; code := "abc123" |})
  /\ handleNkLoginReturn env (fst (handleNkLoginReturn env st))
     = (st, Normal {| state := None; code := "abc123" |})
  /\ snd (handleNkLoginReturn env (fst (handleNkLoginReturn env st)))
     <> Throw UnknownOrExpiredToken.
Proof. repeat split; try (vm_compute; reflexivity). discriminate. Qed.

(** Witness of [second_Complete_fails_unknown_token]. *)
Lemma second_Complete_fails_unknown_token_witness :
  let env1 := browser now "?code=abc123&state=tok" in
  let env2 := browser (now + 2000) "?code=abc123&state=tok" in
  let st := [("prefs", JSON_text (JObj [("units", JStr "metric")]));
             ("tok", record_text (now - 1))] in
  Storage_wf st
  /\ snd (CleanupLocalStorage st) = Normal tt
  /\ handleNkLoginReturn env2 (fst (handleNkLoginReturn env1 st))
     = (fst (handleNkLoginReturn env1 st), Throw UnknownOrExpiredToken).
Proof.
  cbv zeta.
  assert (Hwf : Storage_wf
                  [("prefs", JSON_text (JObj [("units", JStr "metric")]));
                   ("tok", record_text (now - 1))]).
  { unfold Storage_wf. simpl. repeat constructor; simpl; intuition discriminate. }
  assert (Hsweep : snd (CleanupLocalStorage
                          [("prefs", JSON_text (JObj [("units", JStr "metric")]));
                           ("tok", record_text (now - 1))]) = Normal tt)
    by (vm_compute; reflexivity).
  split; [exact Hwf|]. split; [exact Hsweep|].
  apply (@second_Complete_fails_unknown_token codec_engine
           (browser now "?code=abc123&state=tok")
           (browser (now + 2000) "?code=abc123&state=tok")
           _ "abc123" "tok" Hwf Hsweep);
    reflexivity.
Defined.

End Runs.

(** ** Further properties of the sweep *)

Section FurtherSweep.

Context {E : Engine}.

Implicit Types (st : Storage) (k v : string).

Lemma sweep_idem st : sweep (fst (sweep st)) = sweep st.
Proof.
  induction st as [|[k v] st IH]; simpl; [reflexivity|].
  destruct (JSON_parse v) as [item|] eqn:Hp; simpl; [|now rewrite Hp].
  destruct (isRedirectData item) as [[|]|e] eqn:Hrd; simpl.
  - exact IH.
  - destruct (sweep st) as [rest' o] eqn:Hs. simpl in *.
    now rewrite Hp, Hrd, IH.
  - now rewrite Hp, Hrd.
Qed.

Lemma Storage_wf_sweep st : Storage_wf st -> Storage_wf (fst (sweep st)).
Proof.
  unfold Storage_wf, keys.
  induction st as [|[k v] st IH]; simpl; [auto|].
  intros Hnd. inversion Hnd as [|? ? Hnotin Hnd']; subst.
  destruct (JSON_parse v) as [item|]; [|exact Hnd].
  destruct (isRedirectData item) as [[|]|e]; [auto| |exact Hnd].
  pose proof (@sweep_incl E st) as Hincl.
  destruct (sweep st) as [rest' o]. simpl in *.
  constructor; [|auto].
  intros Hin. apply Hnotin. apply in_map_iff in Hin as (kv & Hk & Hin).
  apply in_map_iff. exists kv. split; [exact Hk|now apply Hincl].
Qed.

(** Cleanup is idempotent, whether it returns or raises: a second run on
    the store the first one left ends in the same store with the same
    outcome. *)
Theorem Cleanup_idempotent st :
  Storage_wf st ->
  CleanupLocalStorage (fst (CleanupLocalStorage st)) = CleanupLocalStorage st.
Proof.
  intros Hwf. rewrite (CleanupLocalStorage_sweep Hwf).
  rewrite (CleanupLocalStorage_sweep (Storage_wf_sweep Hwf)).
  apply sweep_idem.
Qed.

Lemma sweep_raise_point st (e : exn) :
  snd (sweep st) = Throw e ->
  exists pre k v post,
    st = pre ++ (k, v) :: post
    /\ forallb (fun kv => inspectable (snd kv)) pre = true
    /\ fst (sweep st)
       = filter (fun kv => negb (parses_as_handshake (snd kv))) pre
         ++ (k, v) :: post
    /\ ((JSON_parse v = None /\ e = SyntaxError)
        \/ (JSON_parse v = Some JNull /\ e = TypeError)).
Proof.
  induction st as [|[k v] st IH]; simpl; [discriminate|].
  destruct (JSON_parse v) as [item|] eqn:Hp.
  - destruct (isRedirectData item) as [[|]|e'] eqn:Hrd.
    + intros Hs. destruct (IH Hs) as (pre & k0 & v0 & post & -> & Hpre & Hfst & He).
      exists ((k, v) :: pre), k0, v0, post. simpl.
      unfold inspectable at 1, parses_as_handshake at 1. rewrite Hp, Hrd.
      repeat split; auto.
      destruct item; try exact Hpre. discriminate.
    + destruct (sweep st) as [rest' o] eqn:Hsw. simpl in *.
      intros Hs. destruct (IH Hs) as (pre & k0 & v0 & post & -> & Hpre & Hfst & He).
      exists ((k, v) :: pre), k0, v0, post. simpl.
      unfold inspectable at 1, parses_as_handshake at 1. rewrite Hp, Hrd.
      simpl. rewrite Hfst. repeat split; auto.
      destruct item; try exact Hpre. discriminate.
    + apply isRedirectData_throws in Hrd as [-> ->]. simpl. intros [= <-].
      exists [], k, v, st. simpl. repeat split; auto.
  - simpl. intros [= <-]. exists [], k, v, st. simpl. repeat split; auto.
Qed.

(** When Cleanup raises, it has stopped at the first entry whose value is
    not JSON text (a [SyntaxError]) or is the JSON text [null] (a
    [TypeError]): the handshake entries before that entry are gone, the
    entry itself and everything after it are as they were. *)
Theorem Cleanup_raise_point st (e : exn) :
  Storage_wf st ->
  snd (CleanupLocalStorage st) = Throw e ->
  exists pre k v post,
    st = pre ++ (k, v) :: post
    /\ forallb (fun kv => inspectable (snd kv)) pre = true
    /\ fst (CleanupLocalStorage st)
       = filter (fun kv => negb (parses_as_handshake (snd kv))) pre
         ++ (k, v) :: post
    /\ ((JSON_parse v = None /\ e = SyntaxError)
        \/ (JSON_parse v = Some JNull /\ e = TypeError)).
Proof.
  intros Hwf. rewrite (CleanupLocalStorage_sweep Hwf). apply sweep_raise_point.
Qed.

Lemma getItem_filter (f : string * string -> bool) st k :
  Storage_wf st ->
  getItem (filter f st) k
  = match getItem st k with
    | Some v => if f (k, v) then Some v else None
    | None => None
    end.
Proof.
  unfold Storage_wf, keys.
  induction st as [|[k' v'] st IH]; simpl; [reflexivity|].
  intros Hnd. inversion Hnd as [|? ? Hnotin Hnd']; subst.
  destruct (String.eqb_spec k' k) as [->|Hne].
  - destruct (f (k, v')) eqn:Hf; simpl.
    + now rewrite String.eqb_refl.
    + apply getItem_None_iff. intros Hin. apply Hnotin.
      apply in_map_iff in Hin as (kv & Hk & Hin).
      apply filter_In in Hin as [Hin _]. apply in_map_iff. eauto.
  - destruct (f (k', v')); simpl.
    + destruct (String.eqb_spec k' k); [contradiction|]. now apply IH.
    + now apply IH.
Qed.

(** After a Cleanup that returns, a key reads as before when its value
    does not parse as a handshake, and is absent when it does. *)
Theorem Cleanup_getItem st k :
  Storage_wf st ->
  snd (CleanupLocalStorage st) = Normal tt ->
  getItem (fst (CleanupLocalStorage st)) k
  = match getItem st k with
    | Some v => if parses_as_handshake v then None else Some v
    | None => None
    end.
Proof.
  intros Hwf. rewrite (CleanupLocalStorage_sweep Hwf). intros Hn.
  rewrite (sweep_inspectable _ (sweep_normal_inspectable _ Hn)). simpl.
  rewrite (getItem_filter _ k Hwf). simpl.
  destruct (getItem st k) as [v|]; [|reflexivity].
  now destruct (parses_as_handshake v).
Qed.

(** The type guard accepts exactly the objects that carry both names,
    whatever the values under them; it throws on [null] alone. *)
Theorem isRedirectData_accepts_iff (data : json) :
  (isRedirectData data = Normal true
   <-> exists members s e,
         data = JObj members
         /\ lookup_last members "state" = Some s
         /\ lookup_last members "expiresOn" = Some e)
  /\ (forall x, isRedirectData data = Throw x <-> data = JNull /\ x = TypeError).
Proof.
  split.
  - split.
    + destruct data as [|b|n|s|items|members]; simpl; try discriminate.
      unfold isRedirectData. simpl.
      destruct (lookup_last members "state") as [s|] eqn:Hs; [|discriminate].
      destruct (lookup_last members "expiresOn") as [e|] eqn:He; [|discriminate].
      intros _. now exists members, s, e.
    + intros (members & s & e & -> & Hs & He).
      unfold isRedirectData. simpl. now rewrite Hs, He.
  - intros x. split.
    + apply isRedirectData_throws.
    + intros [-> ->]. reflexivity.
Qed.

End FurtherSweep.

(** ** Further properties of the two handlers *)

Section FurtherHandlers.

Context {E : Engine}.

Implicit Types (st : Storage) (env : Env).

Lemma Initiate_store env (S : value) (jS : json) st :
  to_json S = Some jS ->
  fst (handleNkLoginRequest env S st)
  = setItem st (nanoid env 15)
            (JSON_text (pending_record jS (Date_now env + 60000))).
Proof. intros HS. now rewrite (@Initiate_run E env S jS st HS). Qed.

(** Complete changes the store exactly as Cleanup does, whatever the URL
    and the clock, and an exception of the sweep is the outcome of the
    attempt. *)
Theorem Complete_store_as_Cleanup env st :
  fst (handleNkLoginReturn env st) = fst (CleanupLocalStorage st)
  /\ (forall e, snd (CleanupLocalStorage st) = Throw e ->
                snd (handleNkLoginReturn env st) = Throw e).
Proof.
  split; [apply Complete_store|]. intros e He.
  destruct (query env "code") as [c|] eqn:Hc;
    [destruct (query env "state") as [tok|] eqn:Ht|].
  - rewrite (Complete_present _ _ Hc Ht). simpl. now rewrite He.
  - rewrite Complete_missing by now right. simpl. now rewrite He.
  - rewrite Complete_missing by now left. simpl. now rewrite He.
Qed.

(** The expiry rule as the code applies it: a stored record whose
    [expiresOn] is the number [e] is turned away with
    [HandshakeExpired] exactly when [e] is later than the current time,
    and is returned with the code otherwise. *)
Theorem Complete_rejects_iff_later env st (c tok text : string)
        (members : list (string * json)) (e : Z) (s : json) :
  Storage_wf st ->
  forallb (fun kv => inspectable (snd kv)) st = true ->
  query env "code" = Some c -> query env "state" = Some tok ->
  getItem st tok = Some text ->
  JSON_parse text = Some (JObj members) ->
  lookup_last members "expiresOn" = Some (JNum e) ->
  lookup_last members "state" = Some s ->
  (snd (handleNkLoginReturn env st) = Throw HandshakeExpired
   <-> Date_now env < e)
  /\ (snd (handleNkLoginReturn env st)
      = Normal {| state := Some s; code := c |}
      <-> e <= Date_now env).
Proof.
  intros Hwf Hall Hc Ht Hget Hparse He Hs.
  rewrite (Complete_expiry env Hwf Hall Hc Ht Hget Hparse He Hs).
  destruct (Z.ltb_spec (Date_now env) e); split; split;
    intros; try discriminate; try reflexivity; lia.
Qed.

(** A stored value that is JSON, not [null], and has no [expiresOn]
    member never expires: whatever the clock, Complete returns its
    [state] member (possibly [undefined]) with the code, and the entry,
    not being handshake-shaped, stays in the store. *)
Theorem Complete_accepts_record_without_expiry
        env st (c tok text : string) (stateBody : json) :
  Storage_wf st ->
  forallb (fun kv => inspectable (snd kv)) st = true ->
  query env "code" = Some c -> query env "state" = Some tok ->
  getItem st tok = Some text ->
  JSON_parse text = Some stateBody ->
  prop stateBody "expiresOn" = Normal None ->
  exists s,
    prop stateBody "state" = Normal s
    /\ snd (handleNkLoginReturn env st) = Normal {| state := s; code := c |}
    /\ getItem (fst (handleNkLoginReturn env st)) tok = Some text.
Proof.
  intros Hwf Hall Hc Ht Hget Hparse Hexp.
  rewrite (Complete_inspectable env Hwf Hall), Hc, Ht, Hget. simpl.
  unfold validate. rewrite Hparse, Hexp.
  assert (Hnull : stateBody <> JNull) by (intros ->; discriminate).
  assert (Hs : exists s, prop stateBody "state" = Normal s)
    by (destruct stateBody; simpl; eauto; contradiction).
  destruct Hs as [s Hs]. exists s. rewrite Hs. simpl.
  repeat split.
  rewrite (getItem_filter _ tok Hwf), Hget.
  unfold parses_as_handshake. simpl. rewrite Hparse.
  unfold isRedirectData. rewrite Hs.
  destruct s; [rewrite Hexp|]; reflexivity.
Qed.

(** Initiate changes exactly one entry and keeps the keys distinct.
    The value under the token afterwards is the text of the session
    record ([state] is left out of it when [JSON.stringify] drops [S]);
    every other key reads as before; when the token already keyed an
    entry, the key list is unchanged (the old value is overwritten),
    otherwise the token is appended as the last key. *)
Theorem Initiate_stores_one_entry env (S : value) st :
  Storage_wf st ->
  let token := nanoid env 15 in
  let record :=
    JObj ((match to_json S with
           | Some jS => [("state", jS)]
           | None => []
           end) ++ [("expiresOn", JNum (Date_now env + 60000))]) in
  let st' := fst (handleNkLoginRequest env S st) in
  Storage_wf st'
  /\ getItem st' token = Some (JSON_text record)
  /\ (forall k, k <> token -> getItem st' k = getItem st k)
  /\ match getItem st token with
     | Some _ => keys st' = keys st
     | None => keys st' = keys st ++ [token]
     end.
Proof.
  intros Hwf. cbv zeta. unfold handleNkLoginRequest. simpl fst.
  split; [now apply Storage_wf_setItem|].
  split.
  - rewrite getItem_setItem. unfold JSON_stringify. simpl.
    now destruct (to_json S).
  - split; [intros k Hk; now apply getItem_setItem_other|].
    rewrite keys_setItem. now destruct (getItem st (nanoid env 15)).
Qed.

(** The address Initiate navigates to, for every state, store and
    environment: the provider's authorization endpoint followed by a
    query string that parses back to exactly five parameters, the
    [redirect_uri] being the origin followed by the redirect path and
    [state] the id [nanoid] returned, whatever characters the origin
    holds. *)
Theorem Initiate_navigates env (S : value) st :
  exists query_text,
    snd (handleNkLoginRequest env S st)
    = Normal ("https://oauth-logbook.nksports.com/oauth/authorize?"
                ++ query_text)%string
    /\ URLSearchParams.new query_text
       = [("response_type", "code");
          ("client_id", "logbook-visualizer");
          ("redirect_uri", (location_origin env ++ NkAuthRedirectPath)%string);
          ("scope", "read");
          ("state", nanoid env 15)]
    /\ URLSearchParams.get (URLSearchParams.new query_text) "state"
       = Some (nanoid env 15)
    /\ URLSearchParams.get (URLSearchParams.new query_text) "code" = None.
Proof.
  exists (URLSearchParams.toString (authorize_params env)).
  split; [reflexivity|].
  unfold authorize_params. rewrite URLFacts.new_toString.
  repeat split.
Qed.

Context {L : EngineLaws E}.

(** Completing one handshake discards every other pending one: after two
    Initiates, a Complete for the first token (accepted or not) leaves
    neither record in the store, and a later Complete for the second
    token fails with [UnknownOrExpiredToken]. *)
Theorem Complete_discards_other_pending
        env0 env0' env1 env2 (S1 S2 : value) (j1 j2 : json) (c2 : string) st :
  Storage_wf st ->
  forallb (fun kv => inspectable (snd kv)) st = true ->
  to_json S1 = Some j1 -> to_json S2 = Some j2 ->
  query env2 "code" = Some c2 ->
  query env2 "state" = Some (nanoid env0' 15) ->
  let st2 := fst (handleNkLoginRequest env0' S2
                    (fst (handleNkLoginRequest env0 S1 st))) in
  let st3 := fst (handleNkLoginReturn env1 st2) in
  getItem st3 (nanoid env0 15) = None
  /\ getItem st3 (nanoid env0' 15) = None
  /\ handleNkLoginReturn env2 st3 = (st3, Throw UnknownOrExpiredToken).
Proof.
  intros Hwf Hall H1 H2 Hc2 Ht2. cbv zeta.
  rewrite (@Initiate_store env0 S1 j1 st H1).
  rewrite (@Initiate_store env0' S2 j2 _ H2).
  set (t1 := nanoid env0 15). set (t2 := nanoid env0' 15).
  set (r1 := JSON_text (pending_record j1 (Date_now env0 + 60000))).
  set (r2 := JSON_text (pending_record j2 (Date_now env0' + 60000))).
  set (st2 := setItem (setItem st t1 r1) t2 r2).
  assert (Hwf2 : Storage_wf st2) by (do 2 apply Storage_wf_setItem; exact Hwf).
  assert (Hall2 : forallb (fun kv => inspectable (snd kv)) st2 = true).
  { apply (forallb_setItem inspectable);
      [apply (forallb_setItem inspectable); [exact Hall|]|];
      apply pending_record_inspectable. }
  rewrite (Complete_inspectable env1 Hwf2 Hall2). simpl fst.
  set (st3 := filter (fun kv => negb (parses_as_handshake (snd kv))) st2).
  assert (Hgone : forall k text,
             getItem st2 k = Some text -> parses_as_handshake text = true ->
             getItem st3 k = None).
  { intros k text Hg Hh. unfold st3.
    rewrite (getItem_filter _ k Hwf2), Hg. simpl. now rewrite Hh. }
  assert (Hg2 : getItem st3 t2 = None).
  { apply (Hgone t2 r2); [apply getItem_setItem|apply pending_record_inspectable]. }
  assert (Hg1 : getItem st3 t1 = None).
  { destruct (String.eqb_spec t1 t2) as [Heq|Hne]; [now rewrite Heq|].
    apply (Hgone t1 r1); [|apply pending_record_inspectable].
    unfold st2. rewrite getItem_setItem_other by congruence.
    apply getItem_setItem. }
  repeat split; [exact Hg1|exact Hg2|].
  assert (Hwf3 : Storage_wf st3) by now apply Storage_wf_filter.
  assert (Hall3 : forallb (fun kv => inspectable (snd kv)) st3 = true)
    by now apply filter_inspectable.
  rewrite (Complete_unknown_token env2 Hwf3 Hall3 Hc2 Ht2 Hg2).
  rewrite (filter_fixed st3) by apply filter_no_handshake. reflexivity.
Qed.

End FurtherHandlers.

(** ** Properties of the provider's effect *)

Section ProviderFacts.

Context {E : Engine}.

Implicit Types (st : Storage) (env : Env) (props : INkAuthProviderProps).

(** On the redirect path no exception of the handler escapes the
    effect, the sweep's [SyntaxError] and [TypeError] included: if
    [redirectError] itself never throws, the effect throws only when
    nothing is left to catch it, that is never. *)
Theorem effect_contains_failures props env st :
  (forall st0, snd (redirectError props st0) = Normal tt) ->
  snd (NkAuthProvider_effect props NkAuthRedirectPath env st) = Normal tt.
Proof.
  intros Herr. unfold NkAuthProvider_effect, try_catch, bind.
  rewrite String.eqb_refl. simpl.
  destruct (handleNkLoginReturn env st) as [st' [r|e]]; [|apply Herr].
  destruct (redirectCallback props (state r) (code r) st') as [st'' [[]|e]];
    [reflexivity|apply Herr].
Qed.

(** An exception thrown by the success handler is caught as well: when
    the handshake completes and [redirectCallback] throws, the effect
    goes on to run [redirectError] from the store the callback left. *)
Theorem effect_callback_failure_runs_redirectError
        props env st st' st'' (r : IRedirectReturn) (e : exn) :
  handleNkLoginReturn env st = (st', Normal r) ->
  redirectCallback props (state r) (code r) st' = (st'', Throw e) ->
  NkAuthProvider_effect props NkAuthRedirectPath env st
  = redirectError props st''.
Proof.
  intros Hret Hcb. unfold NkAuthProvider_effect, try_catch, bind.
  rewrite String.eqb_refl. simpl. now rewrite Hret, Hcb.
Qed.

(** Off the redirect path the effect is the sweep and nothing else: no
    handler runs, and on a store with distinct keys it returns exactly
    when every stored value is JSON text of a non-null value; otherwise
    the sweep's exception escapes the effect. *)
Theorem effect_off_path_is_sweep props (pathname : string) env st :
  pathname <> NkAuthRedirectPath ->
  Storage_wf st ->
  NkAuthProvider_effect props pathname env st = CleanupLocalStorage st
  /\ (snd (NkAuthProvider_effect props pathname env st) = Normal tt
      <-> forallb (fun kv => inspectable (snd kv)) st = true).
Proof.
  intros Hpath Hwf. unfold NkAuthProvider_effect.
  destruct (String.eqb_spec pathname NkAuthRedirectPath); [contradiction|].
  simpl. split; [reflexivity|].
  rewrite (CleanupLocalStorage_sweep Hwf). split.
  - apply sweep_normal_inspectable.
  - intros Hall. now rewrite (sweep_inspectable _ Hall).
Qed.

Context {L : EngineLaws E}.

(** A login that comes back while its record is still valid is reported
    as a failure: after Initiate, the effect on the redirect path, run
    before the 60 seconds are over with the issued token and a code,
    sweeps the store and runs [redirectError], never
    [redirectCallback]. *)
Theorem effect_login_within_window_reports_error
        props env0 env1 (S : value) (jS : json) (c : string) st :
  Storage_wf st ->
  forallb (fun kv => inspectable (snd kv)) st = true ->
  to_json S = Some jS ->
  query env1 "code" = Some c ->
  query env1 "state" = Some (nanoid env0 15) ->
  Date_now env1 < Date_now env0 + 60000 ->
  NkAuthProvider_effect props NkAuthRedirectPath env1
                        (fst (handleNkLoginRequest env0 S st))
  = redirectError props
      (filter (fun kv => negb (parses_as_handshake (snd kv)))
              (fst (handleNkLoginRequest env0 S st))).
Proof.
  intros Hwf Hall HS Hc Ht Hlt.
  rewrite (@Initiate_store E env0 S jS st HS).
  set (token := nanoid env0 15) in *.
  set (text := JSON_text (pending_record jS (Date_now env0 + 60000))).
  assert (Hwf' : Storage_wf (setItem st token text))
    by now apply Storage_wf_setItem.
  assert (Hall' : forallb (fun kv => inspectable (snd kv))
                          (setItem st token text) = true).
  { apply (forallb_setItem inspectable); [exact Hall|].
    apply pending_record_inspectable. }
  pose proof (@Complete_expiry E env1 (setItem st token text) c token text
                [("state", jS); ("expiresOn", JNum (Date_now env0 + 60000))]
                (Date_now env0 + 60000) jS Hwf' Hall' Hc Ht
                (getItem_setItem st token text) (parse_text _)
                eq_refl eq_refl) as Hout.
  destruct (Z.ltb_spec (Date_now env1) (Date_now env0 + 60000)); [|lia].
  pose proof (Complete_inspectable env1 Hwf' Hall') as Hrun.
  unfold NkAuthProvider_effect, try_catch, bind.
  rewrite String.eqb_refl. simpl.
  rewrite Hrun in Hout. simpl in Hout. rewrite Hrun, Hout. reflexivity.
Qed.

End ProviderFacts.

(** ** Concrete runs of the further properties *)

Module MoreRuns.
Import Sample SampleProps.

Local Open Scope string_scope.
Local Open Scope list_scope.

Ltac distinct_keys :=
  unfold Storage_wf; simpl; repeat constructor; simpl; intuition discriminate.

(** Unrelated JSON data next to an expired handshake. *)
Definition prefs : string * string :=
  ("prefs", JSON_text (JObj [("units", JStr "metric")])).

Definition swept : Storage := [prefs; ("tok", record_text (now - 1))].

(** A handshake, a value that is no JSON text, another handshake. *)
Definition blocked : Storage :=
  [("tokA", record_text (now - 1)); prefs; theme; ("tokB", record_text now)].

Lemma swept_wf : Storage_wf swept.
Proof. distinct_keys. Qed.

Lemma blocked_wf : Storage_wf blocked.
Proof. distinct_keys. Qed.

Lemma Cleanup_idempotent_witness :
  Storage_wf blocked
  /\ CleanupLocalStorage (fst (CleanupLocalStorage blocked))
     = ([prefs; theme; ("tokB", record_text now)], Throw SyntaxError).
Proof.
  split; [exact blocked_wf|].
  rewrite (@Cleanup_idempotent codec_engine blocked blocked_wf).
  vm_compute. reflexivity.
Defined.

Lemma Cleanup_raise_point_witness :
  Storage_wf blocked
  /\ snd (CleanupLocalStorage blocked) = Throw SyntaxError
  /\ exists pre k v post,
       blocked = pre ++ (k, v) :: post
       /\ fst (CleanupLocalStorage blocked)
          = filter (fun kv => negb (parses_as_handshake (snd kv))) pre
            ++ (k, v) :: post.
Proof.
  assert (Hthrow : snd (CleanupLocalStorage blocked) = Throw SyntaxError)
    by (vm_compute; reflexivity).
  split; [exact blocked_wf|]. split; [exact Hthrow|].
  destruct (@Cleanup_raise_point codec_engine blocked SyntaxError
              blocked_wf Hthrow) as (pre & k & v & post & H1 & _ & H2 & _).
  now exists pre, k, v, post.
Defined.

Lemma Cleanup_getItem_witness :
  Storage_wf swept
  /\ snd (CleanupLocalStorage swept) = Normal tt
  /\ getItem (fst (CleanupLocalStorage swept)) "tok" = None
  /\ getItem (fst (CleanupLocalStorage swept)) "prefs" = Some (snd prefs).
Proof.
  assert (Hn : snd (CleanupLocalStorage swept) = Normal tt)
    by (vm_compute; reflexivity).
  split; [exact swept_wf|]. split; [exact Hn|].
  split.
  - rewrite (@Cleanup_getItem codec_engine swept "tok" swept_wf Hn).
    vm_compute. reflexivity.
  - rewrite (@Cleanup_getItem codec_engine swept "prefs" swept_wf Hn).
    vm_compute. reflexivity.
Defined.

Lemma Cleanup_leaves_other_entries_witness :
  Storage_wf blocked
  /\ In prefs blocked
  /\ parses_as_handshake (snd prefs) = false
  /\ In prefs (fst (CleanupLocalStorage blocked)).
Proof.
  assert (Hin : In prefs blocked) by (right; left; reflexivity).
  assert (Hno : parses_as_handshake (snd prefs) = false)
    by (vm_compute; reflexivity).
  split; [exact blocked_wf|]. split; [exact Hin|]. split; [exact Hno|].
  exact (proj1 (@Cleanup_leaves_other_entries codec_engine blocked prefs
                  blocked_wf) Hin Hno).
Defined.

Lemma Cleanup_removes_handshakes_witness :
  Storage_wf swept
  /\ forallb (fun kv => inspectable (snd kv)) swept = true
  /\ CleanupLocalStorage swept = ([prefs], Normal tt).
Proof.
  assert (Hall : forallb (fun kv => inspectable (snd kv)) swept = true)
    by (vm_compute; reflexivity).
  split; [exact swept_wf|]. split; [exact Hall|].
  rewrite (proj1 (@Cleanup_removes_handshakes codec_engine swept swept_wf Hall)).
  vm_compute. reflexivity.
Defined.

Lemma Cleanup_returns_iff_witness :
  Storage_wf blocked
  /\ forallb (fun kv => inspectable (snd kv)) blocked = false
  /\ snd (CleanupLocalStorage blocked) <> Normal tt.
Proof.
  assert (Hall : forallb (fun kv => inspectable (snd kv)) blocked = false)
    by (vm_compute; reflexivity).
  split; [exact blocked_wf|]. split; [exact Hall|].
  intros Hn.
  apply (proj1 (@Cleanup_returns_iff codec_engine blocked blocked_wf)) in Hn.
  rewrite Hall in Hn. discriminate.
Defined.

Lemma Complete_leaves_no_handshake_witness :
  let env := browser now "?code=abc123&state=tok" in
  Storage_wf swept
  /\ snd (handleNkLoginReturn env swept)
     = Normal {| state := Some page_json; code := "abc123" |}
  /\ holds_handshake (fst (handleNkLoginReturn env swept)) = false.
Proof.
  cbv zeta.
  assert (Hout : snd (handleNkLoginReturn (browser now "?code=abc123&state=tok")
                                          swept)
                 = Normal {| state := Some page_json; code := "abc123" |})
    by (vm_compute; reflexivity).
  split; [exact swept_wf|]. split; [exact Hout|].
  apply (@Complete_leaves_no_handshake codec_engine _ _ swept_wf).
  intros e He. rewrite Hout in He. discriminate.
Defined.

Lemma Complete_rejects_iff_later_witness :
  let env := browser now "?code=abc123&state=tok" in
  let st := [prefs; ("tok", record_text (now + 1000))] in
  Storage_wf st
  /\ forallb (fun kv => inspectable (snd kv)) st = true
  /\ now < now + 1000
  /\ snd (handleNkLoginReturn env st) = Throw HandshakeExpired.
Proof.
  cbv zeta.
  assert (Hwf : Storage_wf [prefs; ("tok", record_text (now + 1000))])
    by distinct_keys.
  assert (Hall : forallb (fun kv => inspectable (snd kv))
                         [prefs; ("tok", record_text (now + 1000))] = true)
    by (vm_compute; reflexivity).
  assert (Hlt : now < now + 1000) by (vm_compute; reflexivity).
  split; [exact Hwf|]. split; [exact Hall|]. split; [exact Hlt|].
  apply (proj1 (@Complete_rejects_iff_later codec_engine
                  (browser now "?code=abc123&state=tok") _
                  "abc123" "tok" (record_text (now + 1000))
                  [("state", page_json); ("expiresOn", JNum (now + 1000))]
                  (now + 1000) page_json Hwf Hall
                  eq_refl eq_refl eq_refl
                  (parse_text (pending_record page_json (now + 1000)))
                  eq_refl eq_refl)).
  exact Hlt.
Defined.

Lemma Complete_accepts_record_without_expiry_witness :
  let env := browser (now + 86400000) "?code=abc123&state=prefs" in
  Storage_wf swept
  /\ forallb (fun kv => inspectable (snd kv)) swept = true
  /\ exists s,
       snd (handleNkLoginReturn env swept) = Normal {| state := s; code := "abc123" |}
       /\ getItem (fst (handleNkLoginReturn env swept)) "prefs"
          = Some (snd prefs).
Proof.
  cbv zeta.
  assert (Hall : forallb (fun kv => inspectable (snd kv)) swept = true)
    by (vm_compute; reflexivity).
  split; [exact swept_wf|]. split; [exact Hall|].
  destruct (@Complete_accepts_record_without_expiry codec_engine
              (browser (now + 86400000) "?code=abc123&state=prefs") swept
              "abc123" "prefs" (snd prefs) (JObj [("units", JStr "metric")])
              swept_wf Hall eq_refl eq_refl eq_refl
              (parse_text (JObj [("units", JStr "metric")])) eq_refl)
    as (s & _ & Hout & Hget).
  exists s. split; assumption.
Defined.

Lemma Complete_missing_parameters_witness :
  let env := browser now "?state=tok" in
  Storage_wf swept
  /\ forallb (fun kv => inspectable (snd kv)) swept = true
  /\ query env "code" = None
  /\ handleNkLoginReturn env swept = ([prefs], Throw MissingParameters).
Proof.
  cbv zeta.
  assert (Hall : forallb (fun kv => inspectable (snd kv)) swept = true)
    by (vm_compute; reflexivity).
  assert (Hq : query (browser now "?state=tok") "code" = None) by reflexivity.
  split; [exact swept_wf|]. split; [exact Hall|]. split; [exact Hq|].
  rewrite (proj1 (@Complete_missing_parameters codec_engine
                    (browser now "?state=tok") swept swept_wf Hall
                    (or_introl Hq))).
  vm_compute. reflexivity.
Defined.

Lemma Initiate_then_Complete_witness :
  let env0 := browser now "" in
  let env1 := browser (now + 59999) "?code=abc123&state=V1StGXR8_Z5jdHi" in
  Storage_wf [prefs]
  /\ forallb (fun kv => inspectable (snd kv)) [prefs] = true
  /\ to_json page = Some page_json
  /\ snd (handleNkLoginReturn env1 (fst (handleNkLoginRequest env0 page [prefs])))
     = Throw HandshakeExpired.
Proof.
  cbv zeta.
  assert (Hwf : Storage_wf [prefs]) by distinct_keys.
  assert (Hall : forallb (fun kv => inspectable (snd kv)) [prefs] = true)
    by (vm_compute; reflexivity).
  split; [exact Hwf|]. split; [exact Hall|]. split; [reflexivity|].
  rewrite (@Initiate_then_Complete codec_engine codec_engine_laws
             (browser now "")
             (browser (now + 59999) "?code=abc123&state=V1StGXR8_Z5jdHi")
             page page_json "abc123" [prefs] Hwf Hall eq_refl eq_refl eq_refl).
  vm_compute. reflexivity.
Defined.

Lemma Initiate_stores_one_entry_witness :
  let env := browser now "" in
  let taken := [prefs; ("V1StGXR8_Z5jdHi", "stale")] in
  Storage_wf taken /\ Storage_wf [prefs]
  /\ fst (handleNkLoginRequest env page taken)
     = [prefs; ("V1StGXR8_Z5jdHi", record_text (now + 60000))]
  /\ getItem (fst (handleNkLoginRequest env page [prefs])) "V1StGXR8_Z5jdHi"
     = Some (record_text (now + 60000))
  /\ getItem (fst (handleNkLoginRequest env page [prefs])) "prefs"
     = Some (snd prefs)
  /\ keys (fst (handleNkLoginRequest env page [prefs]))
     = ["prefs"; "V1StGXR8_Z5jdHi"].
Proof.
  cbv zeta.
  assert (Hwf : Storage_wf [prefs; ("V1StGXR8_Z5jdHi", "stale")])
    by distinct_keys.
  assert (Hwf1 : Storage_wf [prefs]) by distinct_keys.
  split; [exact Hwf|]. split; [exact Hwf1|].
  split; [vm_compute; reflexivity|].
  pose proof (@Initiate_stores_one_entry codec_engine (browser now "")
                page [prefs] Hwf1) as H.
  cbv zeta in H. destruct H as (_ & Hget & Hother & Hkeys).
  split; [exact Hget|].
  split; [rewrite (Hother "prefs") by discriminate; reflexivity|].
  exact Hkeys.
Defined.

Lemma Complete_discards_other_pending_witness :
  let env0 := browser now "" in
  let env0' := {| Date_now := now + 10;
                  location_origin := "https://dash.example";
                  location_search := "";
                  nanoid := fun _ => "mJ2kq9xPz_4Lw7d" |} in
  let env1 := browser (now + 61000) "?code=abc123&state=V1StGXR8_Z5jdHi" in
  let env2 := browser (now + 62000) "?code=def456&state=mJ2kq9xPz_4Lw7d" in
  let st3 := fst (handleNkLoginReturn env1
                    (fst (handleNkLoginRequest env0' page_with_callback
                            (fst (handleNkLoginRequest env0 page [prefs]))))) in
  Storage_wf [prefs]
  /\ forallb (fun kv => inspectable (snd kv)) [prefs] = true
  /\ st3 = [prefs]
  /\ handleNkLoginReturn env2 st3 = (st3, Throw UnknownOrExpiredToken).
Proof.
  cbv zeta.
  assert (Hwf : Storage_wf [prefs]) by distinct_keys.
  assert (Hall : forallb (fun kv => inspectable (snd kv)) [prefs] = true)
    by (vm_compute; reflexivity).
  split; [exact Hwf|]. split; [exact Hall|].
  split; [vm_compute; reflexivity|].
  exact (proj2 (proj2
    (@Complete_discards_other_pending codec_engine codec_engine_laws
       (browser now "")
       {| Date_now := now + 10;
          location_origin := "https://dash.example";
          location_search := "";
          nanoid := fun _ => "mJ2kq9xPz_4Lw7d" |}
       (browser (now + 61000) "?code=abc123&state=V1StGXR8_Z5jdHi")
       (browser (now + 62000) "?code=def456&state=mJ2kq9xPz_4Lw7d")
       page page_with_callback page_json page_json "def456" [prefs]
       Hwf Hall eq_refl eq_refl eq_refl eq_refl))).
Defined.

Lemma effect_contains_failures_witness :
  (forall st0, snd (redirectError quiet st0) = Normal tt)
  /\ snd (NkAuthProvider_effect quiet NkAuthRedirectPath
                                (browser now "?code=abc123&state=tokA") blocked)
     = Normal tt
  /\ snd (handleNkLoginReturn (browser now "?code=abc123&state=tokA") blocked)
     = Throw SyntaxError.
Proof.
  assert (Hq : forall st0, snd (redirectError quiet st0) = Normal tt)
    by (intros st0; reflexivity).
  split; [exact Hq|]. split; [|vm_compute; reflexivity].
  exact (@effect_contains_failures codec_engine quiet
           (browser now "?code=abc123&state=tokA") blocked Hq).
Defined.

Lemma effect_callback_failure_runs_redirectError_witness :
  let env := browser now "?code=abc123&state=tok" in
  handleNkLoginReturn env swept
  = ([prefs], Normal {| state := Some page_json; code := "abc123" |})
  /\ NkAuthProvider_effect failing_callback NkAuthRedirectPath env swept
     = ([prefs; ("loginFailed", "true")], Normal tt).
Proof.
  cbv zeta.
  assert (Hret : handleNkLoginReturn (browser now "?code=abc123&state=tok") swept
                 = ([prefs], Normal {| state := Some page_json; code := "abc123" |}))
    by (vm_compute; reflexivity).
  split; [exact Hret|].
  rewrite (@effect_callback_failure_runs_redirectError codec_engine
             failing_callback (browser now "?code=abc123&state=tok") swept
             [prefs] [prefs] _ (Error "navigation failed") Hret eq_refl).
  vm_compute. reflexivity.
Defined.

Lemma effect_off_path_is_sweep_witness :
  "/logbook" <> NkAuthRedirectPath
  /\ Storage_wf blocked
  /\ NkAuthProvider_effect quiet "/logbook" (browser now "") blocked
     = ([prefs; theme; ("tokB", record_text now)], Throw SyntaxError).
Proof.
  assert (Hp : "/logbook" <> NkAuthRedirectPath) by discriminate.
  split; [exact Hp|]. split; [exact blocked_wf|].
  rewrite (proj1 (@effect_off_path_is_sweep codec_engine quiet "/logbook"
                    (browser now "") blocked Hp blocked_wf)).
  vm_compute. reflexivity.
Defined.

Lemma effect_login_within_window_reports_error_witness :
  let env0 := browser now "" in
  let env1 := browser (now + 3000) "?code=abc123&state=V1StGXR8_Z5jdHi" in
  Storage_wf [prefs]
  /\ forallb (fun kv => inspectable (snd kv)) [prefs] = true
  /\ Date_now env1 < Date_now env0 + 60000
  /\ NkAuthProvider_effect failing_callback NkAuthRedirectPath env1
                           (fst (handleNkLoginRequest env0 page [prefs]))
     = ([prefs; ("loginFailed", "true")], Normal tt).
Proof.
  cbv zeta.
  assert (Hwf : Storage_wf [prefs]) by distinct_keys.
  assert (Hall : forallb (fun kv => inspectable (snd kv)) [prefs] = true)
    by (vm_compute; reflexivity).
  assert (Hlt : Date_now (browser (now + 3000) "?code=abc123&state=V1StGXR8_Z5jdHi")
                < Date_now (browser now "") + 60000)
    by (vm_compute; reflexivity).
  split; [exact Hwf|]. split; [exact Hall|]. split; [exact Hlt|].
  rewrite (@effect_login_within_window_reports_error
             codec_engine codec_engine_laws failing_callback
             (browser now "")
             (browser (now + 3000) "?code=abc123&state=V1StGXR8_Z5jdHi")
             page page_json "abc123" [prefs]
             Hwf Hall eq_refl eq_refl eq_refl Hlt).
  vm_compute. reflexivity.
Defined.

End MoreRuns.
